(** * emotion-recognition: the score generator, the normalizer/ranker and
      the upload handler of [src/App.jsx]

    The development embeds the logic of the component: [normalizeScores],
    [mockPredictEmotion], the state updates of the handlers ([handleFile],
    [handleDrop], [analyzeAudio], [startRecording], [stopRecording] and the
    recorder callbacks), [topEmotion], [formatConfidence] and the three
    lookup tables.  The markup, the browser's media objects and the
    [useEffect] that revokes object URLs are not modelled.

    Modelling choices.
    - The component is embedded with a Number holding a score as an exact
      rational ([Q]) and a Number holding a length or a confidence as an
      integer ([nat], [Z]).  The normalizer is embedded a second time over
      IEEE-754 binary64 (module [F64]), as the code computes it: there the
      sum, the quotient and the product round, and the sum can overflow.
      What is proved about scores over [Q] is stated so that it also holds
      of the binary64 computation; where the two differ, the statement is
      over [F64].
    - A string is a [string] of the standard library; only the length of a
      name and a prefix of a MIME type are observed, so a character stands
      for one UTF-16 code unit.
    - [Math.random()] is an explicit stream [rand : nat -> Q]: [rand k] is
      the value returned by the k-th call made during one invocation.
    - [async]/[await] and the 900 ms timer are not modelled; the value a
      promise resolves to is the value of the function.
    - React state is an explicit record; a handler maps a state to the next
      state together with the external calls it made. *)

From Stdlib Require Import ZArith QArith Qround Qminmax List String Bool Lia Lqa.
From Stdlib Require Import Permutation Sorted DecimalString DecimalZ DecimalPos.
From Stdlib Require Import PrimFloat FloatOps SpecFloat.
Import ListNotations.

Local Open Scope string_scope.
Local Open Scope Q_scope.

(** ** JavaScript primitives used by the component *)

Module JS.

(** [Math.round]: the nearest integer, a tie going towards +infinity. *)
Definition Math_round (x : Q) : Z := Qfloor (x + (1 # 2)).

(** [Math.max] on two numbers. *)
Definition Math_max (a b : Q) : Q := if Qle_bool a b then b else a.

(** [x || d] on a number: [0] is the falsy number. *)
Definition or_default (x d : Q) : Q := if Qeq_bool x 0 then d else x.

(** [s || d] on a possibly undefined string: [undefined] and the empty
    string are falsy. *)
Definition or_string (s : option string) (d : string) : string :=
  match s with
  | Some (String c r) => String c r
  | _ => d
  end.

(** [Array.prototype.map] with a callback that calls [Math.random()] once
    per element, in index order; [k] counts the calls made so far. *)
Fixpoint map_random {A B : Type} (f : A -> Q -> B) (rand : nat -> Q)
         (k : nat) (l : list A) : list B :=
  match l with
  | [] => []
  | x :: xs => f x (rand k) :: map_random f rand (S k) xs
  end.

Section Sort.
Variable A : Type.
(** the comparator: a negative or zero result keeps its first argument
    in front of the second one *)
Variable cmp : A -> A -> Z.

Fixpoint insert (x : A) (l : list A) : list A :=
  match l with
  | [] => [x]
  | y :: ys => if (cmp x y <=? 0)%Z then x :: y :: ys
               else y :: insert x ys
  end.

(** [Array.prototype.sort(cmp)].  ECMAScript requires the sort to be
    stable; a stable insertion sort computes that order. *)
Definition Array_sort (l : list A) : list A := fold_right insert [] l.
End Sort.

Arguments insert {A} cmp x l.
Arguments Array_sort {A} cmp l.

End JS.

(** ** Data *)

(** An entry of the [base] and [jittered] arrays: [{ label, score }]. *)
Record RawScore : Type := mkRaw { label : string; score : Q }.

(** An entry after [normalizeScores]: [{ ...score, confidence }]. *)
Record RankedResult : Type :=
  mkRanked { rlabel : string; rscore : Q; confidence : Z }.

(** What the component reads of a [File]; [None] is a property that is
    [undefined]. *)
Record FileLike : Type :=
  mkFile { name : option string; type : option string }.

(** ** [normalizeScores] *)

(** [scores.reduce((sum, score) => sum + score.score, 0)] *)
Definition sum_scores (scores : list RawScore) : Q :=
  fold_left (fun sum s => sum + score s) scores 0.

(** [const total = scores.reduce(...) || 1] *)
Definition total (scores : list RawScore) : Q :=
  JS.or_default (sum_scores scores) 1.

Definition normalizeScores (scores : list RawScore) : list RankedResult :=
  let total := total scores in
  map (fun s => {| rlabel := label s;
                   rscore := score s;
                   confidence := JS.Math_round ((score s / total) * 100) |})
      scores.

(** ** [mockPredictEmotion] *)

(** [const seed = (fileLike?.name || 'mic').length] *)
Definition seed (fileLike : option FileLike) : nat :=
  String.length
    (JS.or_string (match fileLike with Some f => name f | None => None end)
                  "mic").

(** [seed % 3] and the like, as a Number. *)
Definition mod3 (n : nat) : Q := inject_Z (Z.of_nat (n mod 3)).

(** The [base] array. *)
Definition base (seed : nat) : list RawScore :=
  [ {| label := "Calm";     score := 0.32 + mod3 seed * 0.05 |};
    {| label := "Stressed"; score := 0.28 + mod3 (seed + 1) * 0.04 |};
    {| label := "Excited";  score := 0.25 + mod3 (seed + 2) * 0.03 |};
    {| label := "Neutral";  score := 0.15 |} ].

(** [(Math.random() - 0.5) * 0.12] for a draw [r]. *)
Definition jitter (r : Q) : Q := (r - 0.5) * 0.12.

(** The callback of [base.map]. *)
Definition jitter_item (item : RawScore) (r : Q) : RawScore :=
  {| label := label item;
     score := JS.Math_max 0.05 (score item + jitter r) |}.

(** The [jittered] array. *)
Definition jittered (seed : nat) (rand : nat -> Q) : list RawScore :=
  JS.map_random jitter_item rand 0 (base seed).

(** The comparator [(a, b) => b.confidence - a.confidence]. *)
Definition by_confidence (a b : RankedResult) : Z :=
  (confidence b - confidence a)%Z.

(** [normalizeScores(xs).sort((a, b) => b.confidence - a.confidence)] *)
Definition rank (scores : list RawScore) : list RankedResult :=
  JS.Array_sort by_confidence (normalizeScores scores).

(** The value the promise of [mockPredictEmotion(fileLike)] resolves to. *)
Definition mockPredictEmotion (fileLike : option FileLike)
           (rand : nat -> Q) : list RankedResult :=
  rank (jittered (seed fileLike) rand).

(** ** The component state and the upload handler *)

Inductive Status : Type := idle | loading | done.

(** The [useState] cells of [App]. *)
Record AppState : Type := mkState {
  audioUrl : string;
  audioName : option string;
  results : list RankedResult;
  status : Status;
  error : string;
  isRecording : bool
}.

(** [App]'s initial state. *)
Definition initial : AppState :=
  {| audioUrl := ""; audioName := Some ""; results := []; status := idle;
     error := ""; isRecording := false |}.

(** The external calls a handler makes. *)
Inductive Effect : Type :=
| CreateObjectURL (file : FileLike)
| InvokePipeline (file : FileLike).

Definition setAudioUrl (v : string) (st : AppState) : AppState :=
  {| audioUrl := v; audioName := audioName st; results := results st;
     status := status st; error := error st; isRecording := isRecording st |}.

Definition setAudioName (v : option string) (st : AppState) : AppState :=
  {| audioUrl := audioUrl st; audioName := v; results := results st;
     status := status st; error := error st; isRecording := isRecording st |}.

Definition setResults (v : list RankedResult) (st : AppState) : AppState :=
  {| audioUrl := audioUrl st; audioName := audioName st; results := v;
     status := status st; error := error st; isRecording := isRecording st |}.

Definition setStatus (v : Status) (st : AppState) : AppState :=
  {| audioUrl := audioUrl st; audioName := audioName st; results := results st;
     status := v; error := error st; isRecording := isRecording st |}.

Definition setError (v : string) (st : AppState) : AppState :=
  {| audioUrl := audioUrl st; audioName := audioName st; results := results st;
     status := status st; error := v; isRecording := isRecording st |}.

(** [analyzeAudio(file)] up to its [await]: the two synchronous updates and
    the call of the pipeline. *)
Definition analyzeAudio (file : FileLike) (st : AppState)
  : AppState * list Effect :=
  (setError "" (setStatus loading st), [InvokePipeline file]).

(** [analyzeAudio] after the [await], when the promise resolved. *)
Definition analyzeAudio_resolved (prediction : list RankedResult)
           (st : AppState) : AppState :=
  setStatus done (setResults prediction st).

(** [analyzeAudio] after the [await], when the promise rejected. *)
Definition analyzeAudio_rejected (st : AppState) : AppState :=
  setStatus idle (setError "Could not analyze. Please try again." st).

(** [file?.type?.startsWith('audio')], with [undefined] read as falsy. *)
Definition type_startsWith_audio (file : option FileLike) : bool :=
  match file with
  | Some f => match type f with
              | Some t => String.prefix "audio" t
              | None => false
              end
  | None => false
  end.

(** [handleFile(file)]; [createObjectURL] stands for the browser's
    [URL.createObjectURL]. *)
Definition handleFile (createObjectURL : FileLike -> string)
           (file : option FileLike) (st : AppState)
  : AppState * list Effect :=
  if negb (type_startsWith_audio file) then
    (setError "Please upload an audio file (wav, m4a, mp3)." st, [])
  else
    match file with
    | Some f =>
        let url := createObjectURL f in
        let st1 := setAudioName (name f) (setAudioUrl url st) in
        let '(st2, effs) := analyzeAudio f st1 in
        (st2, CreateObjectURL f :: effs)
    | None => (st, []) (* not reached: the test fails without a file *)
    end.

(** ** The specification's vocabulary *)

(** The total of the specification: the sum of all scores, read as 1 when
    that sum is zero. *)
Definition spec_total (scores : list RawScore) : Q :=
  let t := fold_right (fun s acc => score s + acc) 0 scores in
  if Qeq_dec t 0 then 1 else t.

(** [n] is [x] rounded to the nearest integer, halves going up. *)
Definition round_half_up (x : Q) (n : Z) : Prop :=
  inject_Z n - (1 # 2) <= x /\ x < inject_Z n + (1 # 2).

(** The seed of the specification: the length of the handle's display name,
    the length of the fallback identifier when there is none. *)
Definition spec_seed (fileLike : option FileLike) : nat :=
  match fileLike with
  | Some {| name := Some n |} => String.length n
  | _ => String.length "mic"
  end.

(** The sum of the confidences of a result. *)
Definition sum_confidence (rs : list RankedResult) : Z :=
  fold_right (fun r acc => (confidence r + acc)%Z) 0%Z rs.

(** Two score arrays that agree entry by entry: same labels, equal scores. *)
Definition same_scores (l1 l2 : list RawScore) : Prop :=
  Forall2 (fun a b => label a = label b /\ score a == score b) l1 l2.

(** A clip called [clip5.wav], whatever its MIME type. *)
Definition clip5 (mime : option string) : FileLike :=
  {| name := Some "clip5.wav"; type := mime |}.

(** ** What the component renders *)

(** [obj[key]] on an object literal, own properties only; [None] is
    [undefined]. *)
Fixpoint lookup {V : Type} (key : string) (obj : list (string * V))
  : option V :=
  match obj with
  | [] => None
  | (k, v) :: rest => if String.eqb k key then Some v else lookup key rest
  end.

Definition EMOTION_COLORS : list (string * string) :=
  [ ("Calm", "#5fd4a8"); ("Stressed", "#ef798a");
    ("Excited", "#f6c344"); ("Neutral", "#8aa0ff") ].

Definition cues : list (string * string) :=
  [ ("Calm", "Voice is steady and soft — likely comfortable.");
    ("Stressed", "Faster pace or tension — consider slowing down together.");
    ("Excited",
     "Higher energy — celebrate or channel into a quick activity.");
    ("Neutral", "No strong signal — keep checking in.") ].

Definition suggestions : list (string * list string) :=
  [ ("Calm", ["Offer positive feedback"; "Maintain routine";
              "Share a quiet activity"]);
    ("Stressed", ["Give space and deep breaths together";
                  "Reduce noise/visual clutter";
                  "Offer a choice between two calming options"]);
    ("Excited", ["Celebrate the moment"; "Pair with a movement break";
                 "Transition with a short countdown"]);
    ("Neutral", ["Ask “How are you feeling?”";
                 "Invite a thumbs-up/sideways/down check-in";
                 "Keep observing for shifts"]) ].

(** [results.length ? results[0] : null] *)
Definition topEmotion (results : list RankedResult) : option RankedResult :=
  if (List.length results =? 0)%nat then None else nth_error results 0.

(** An integer Number inside a template literal: its decimal digits. *)
Definition number_to_string (n : Z) : string :=
  NilZero.string_of_int (Z.to_int n).

(** [formatConfidence]: [`${Math.max(0, Math.min(100, value))}%`].  The
    component applies it to confidences, which are integers. *)
Definition formatConfidence (value : Z) : string :=
  number_to_string (Z.max 0 (Z.min 100 value)) ++ "%".

(** The width of a bar: [`${Math.min(item.confidence, 100)}%`] *)
Definition bar_width (value : Z) : string :=
  number_to_string (Z.min value 100) ++ "%".

(** ** The other handlers *)

(** [files?.[0]] *)
Definition first_file (files : option (list FileLike)) : option FileLike :=
  match files with
  | Some (f :: _) => Some f
  | _ => None
  end.

(** [handleDrop], and the [onChange] of the file input, which has the same
    body: [const file = files?.[0]; if (file) handleFile(file)].  The call
    [event.preventDefault()] only concerns the browser and is not recorded. *)
Definition handleDrop (createObjectURL : FileLike -> string)
           (files : option (list FileLike)) (st : AppState)
  : AppState * list Effect :=
  match first_file files with
  | Some f => handleFile createObjectURL (Some f) st
  | None => (st, [])
  end.

Definition setIsRecording (v : bool) (st : AppState) : AppState :=
  {| audioUrl := audioUrl st; audioName := audioName st; results := results st;
     status := status st; error := error st; isRecording := v |}.

(** [startRecording] when [getUserMedia] resolved and the recorder started:
    the three state updates at the end of the [try] block. *)
Definition startRecording_started (st : AppState) : AppState :=
  setResults [] (setStatus idle (setIsRecording true st)).

(** [startRecording] when the [try] block threw: the [catch] block. *)
Definition startRecording_failed (st : AppState) : AppState :=
  setError "Microphone permission is needed to record." st.

(** The state update of [stopRecording]. *)
Definition stopRecording (st : AppState) : AppState :=
  setIsRecording false st.

(** [recorder.ondataavailable] on [chunksRef.current]; a chunk is the list
    of its bytes: [if (e.data.size > 0) chunksRef.current.push(e.data)]. *)
Definition ondataavailable {byte : Type} (data : list byte)
           (chunks : list (list byte)) : list (list byte) :=
  if (0 <? List.length data)%nat then chunks ++ [data] else chunks.

(** The file [recorder.onstop] builds:
    [new File([blob], 'microphone.webm', { type: 'audio/webm' })]. *)
Definition microphone_file : FileLike :=
  {| name := Some "microphone.webm"; type := Some "audio/webm" |}.

(** [recorder.onstop]; [url] is what [URL.createObjectURL(blob)] returned. *)
Definition recorder_onstop (url : string) (st : AppState)
  : AppState * list Effect :=
  analyzeAudio microphone_file
               (setAudioName (Some "Live recording") (setAudioUrl url st)).

(** ** The component as a transition system *)

(** The state cells together with the calls of [mockPredictEmotion] that
    have not settled yet, oldest first. *)
Record Component : Type :=
  mkComponent { ui : AppState; pending : list FileLike }.

(** The component when it is mounted. *)
Definition mounted : Component := {| ui := initial; pending := [] |}.

(** What can happen to the component: a handler of [App] runs, or a pending
    call of the pipeline settles.  [PipelineResolved i rand] settles the
    call at position [i] with the draws [rand] of [Math.random]. *)
Inductive Event : Type :=
| FilesChosen (files : option (list FileLike))
| RecordingStarted
| RecordingFailed
| StopClicked
| RecorderStopped (url : string)
| PipelineResolved (i : nat) (rand : nat -> Q)
| PipelineRejected (i : nat).

(** The calls of the pipeline among the external calls of a handler. *)
Definition invocations (effs : list Effect) : list FileLike :=
  flat_map (fun e => match e with
                     | InvokePipeline f => [f]
                     | CreateObjectURL _ => []
                     end) effs.

(** [Math.random] returns a number in [0,1); the pipeline makes four
    draws. *)
Definition draws_in_range (rand : nat -> Q) : bool :=
  forallb (fun k => Qle_bool 0 (rand k) && negb (Qle_bool 1 (rand k)))
          (seq 0 4).

Fixpoint remove_nth {A : Type} (i : nat) (l : list A) : list A :=
  match l, i with
  | [], _ => []
  | _ :: xs, O => xs
  | x :: xs, S j => x :: remove_nth j xs
  end.

Definition after_handler (c : Component) (r : AppState * list Effect)
  : Component :=
  {| ui := fst r; pending := (pending c ++ invocations (snd r))%list |}.

(** One event; [None] when the event cannot happen (no such pending call,
    or draws outside [0,1)).  The handlers may run in any order: the runs
    of the component in a browser are among the runs of this function. *)
Definition step (createObjectURL : FileLike -> string) (e : Event)
           (c : Component) : option Component :=
  match e with
  | FilesChosen files =>
      Some (after_handler c (handleDrop createObjectURL files (ui c)))
  | RecordingStarted =>
      Some {| ui := startRecording_started (ui c); pending := pending c |}
  | RecordingFailed =>
      Some {| ui := startRecording_failed (ui c); pending := pending c |}
  | StopClicked =>
      Some {| ui := stopRecording (ui c); pending := pending c |}
  | RecorderStopped url =>
      Some (after_handler c (recorder_onstop url (ui c)))
  | PipelineResolved i rand =>
      match nth_error (pending c) i with
      | Some f =>
          if draws_in_range rand then
            Some {| ui := analyzeAudio_resolved
                            (mockPredictEmotion (Some f) rand) (ui c);
                    pending := remove_nth i (pending c) |}
          else None
      | None => None
      end
  | PipelineRejected i =>
      match nth_error (pending c) i with
      | Some _ => Some {| ui := analyzeAudio_rejected (ui c);
                          pending := remove_nth i (pending c) |}
      | None => None
      end
  end.

Fixpoint run (createObjectURL : FileLike -> string) (events : list Event)
         (c : Component) : option Component :=
  match events with
  | [] => Some c
  | e :: es => match step createObjectURL e c with
               | Some c' => run createObjectURL es c'
               | None => None
               end
  end.

(** [results] came out of the pipeline: it is what [mockPredictEmotion]
    returns for some clip and some draws in [0,1). *)
Definition from_pipeline (rs : list RankedResult) : Prop :=
  exists (f : FileLike) (rand : nat -> Q),
    (forall k, 0 <= rand k /\ rand k < 1) /\
    rs = mockPredictEmotion (Some f) rand.

(** What holds of the component at all times (see [inv_run]). *)
Definition inv (c : Component) : Prop :=
  (results (ui c) = [] \/ from_pipeline (results (ui c))) /\
  (status (ui c) = done -> results (ui c) <> []) /\
  (status (ui c) = loading -> pending c <> []).

(** The chunks [chunksRef.current] holds after the recorder delivered
    [datas], one [dataavailable] event each. *)
Definition record_chunks {byte : Type} (datas : list (list byte))
           (chunks : list (list byte)) : list (list byte) :=
  fold_left (fun acc data => ondataavailable data acc) datas chunks.

(** ** [normalizeScores] in binary64 *)

Module F64.

(** An entry [{ label, score }] whose score is a double. *)
Record RawScore : Type := mkRaw { label : string; score : float }.

(** What [Math.round] returns: NaN, an infinity, or an integer (a zero of
    either sign is the integer 0). *)
Inductive Rounded : Type :=
| NaN
| Infinite (negative : bool)
| Int (n : Z).

(** An entry [{ ...score, confidence }]. *)
Record RankedResult : Type :=
  mkRanked { rlabel : string; rscore : float; confidence : Rounded }.

(** The exact value of a finite double. *)
Definition to_Q (x : float) : option Q :=
  match Prim2SF x with
  | S754_zero _ => Some 0
  | S754_finite s m e =>
      Some ((if s then -1 else 1) * inject_Z (Z.pos m) * 2 ^ e)
  | _ => None
  end.

(** [Math.round]: NaN and the infinities are returned as they are; a
    finite double goes to the nearest integer of its exact value, a tie
    going towards +infinity. *)
Definition Math_round (x : float) : Rounded :=
  match Prim2SF x with
  | S754_nan => NaN
  | S754_infinity s => Infinite s
  | _ => match to_Q x with
         | Some q => Int (JS.Math_round q)
         | None => NaN
         end
  end.

(** [x || d] on a number: [0], [-0] and NaN are the falsy numbers. *)
Definition or_default (x d : float) : float :=
  if (is_zero x || is_nan x)%bool then d else x.

(** [scores.reduce((sum, score) => sum + score.score, 0)] *)
Definition sum_scores (scores : list RawScore) : float :=
  fold_left (fun sum s => (sum + score s)%float) scores 0%float.

(** [const total = scores.reduce(...) || 1] *)
Definition total (scores : list RawScore) : float :=
  or_default (sum_scores scores) 1%float.

Definition normalizeScores (scores : list RawScore) : list RankedResult :=
  let total := total scores in
  map (fun s => {| rlabel := label s;
                   rscore := score s;
                   confidence :=
                     Math_round ((score s / total) * 100)%float |})
      scores.



End F64.

(** * Properties *)

(** ** Sums and the divisor of [normalizeScores] *)

Lemma fold_left_sum_acc (l : list RawScore) (a : Q) :
  fold_left (fun sum s => sum + score s) l a
  == a + fold_left (fun sum s => sum + score s) l 0.
Proof.
  revert a. induction l as [|x l IH]; intro a; simpl.
  - ring.
  - rewrite (IH (a + score x)), (IH (0 + score x)). ring.
Qed.

Lemma sum_scores_cons (x : RawScore) (l : list RawScore) :
  sum_scores (x :: l) == score x + sum_scores l.
Proof.
  unfold sum_scores. simpl. rewrite fold_left_sum_acc. ring.
Qed.

Lemma sum_scores_fold_right (l : list RawScore) :
  sum_scores l == fold_right (fun s acc => score s + acc) 0 l.
Proof.
  induction l as [|x l IH].
  - reflexivity.
  - rewrite sum_scores_cons. simpl. rewrite IH. reflexivity.
Qed.

Lemma or_default_nonzero (x d : Q) : ~ d == 0 -> ~ JS.or_default x d == 0.
Proof.
  intros Hd. unfold JS.or_default.
  destruct (Qeq_bool x 0) eqn:E; [exact Hd|].
  intro H. apply Qeq_bool_iff in H. congruence.
Qed.

Lemma total_nonzero (scores : list RawScore) : ~ total scores == 0.
Proof. apply or_default_nonzero. discriminate. Qed.

Lemma total_of_nonzero_sum (scores : list RawScore) :
  ~ sum_scores scores == 0 -> total scores = sum_scores scores.
Proof.
  intros H. unfold total, JS.or_default.
  destruct (Qeq_bool (sum_scores scores) 0) eqn:E; [|reflexivity].
  apply Qeq_bool_iff in E. contradiction.
Qed.

Lemma total_of_zero_sum (scores : list RawScore) :
  sum_scores scores == 0 -> total scores = 1.
Proof.
  intros H. unfold total, JS.or_default.
  apply Qeq_bool_iff in H. rewrite H. reflexivity.
Qed.

Lemma total_spec_total (scores : list RawScore) :
  total scores == spec_total scores.
Proof.
  unfold spec_total.
  destruct (Qeq_dec _ 0) as [E|E]; rewrite <- sum_scores_fold_right in E.
  - rewrite (total_of_zero_sum _ E). reflexivity.
  - rewrite (total_of_nonzero_sum _ E). apply sum_scores_fold_right.
Qed.

(** ** Rounding *)

Lemma Math_round_half_up (x : Q) : round_half_up x (JS.Math_round x).
Proof.
  unfold round_half_up, JS.Math_round.
  pose proof (Qfloor_le (x + (1 # 2))) as Hlo.
  pose proof (Qlt_floor (x + (1 # 2))) as Hhi.
  rewrite inject_Z_plus in Hhi. change (inject_Z 1) with 1 in Hhi.
  split; lra.
Qed.

Lemma round_half_up_unique (x : Q) (n m : Z) :
  round_half_up x n -> round_half_up x m -> n = m.
Proof.
  unfold round_half_up. intros [Hn1 Hn2] [Hm1 Hm2].
  assert (inject_Z n < inject_Z m + 1) as H1 by lra.
  assert (inject_Z m < inject_Z n + 1) as H2 by lra.
  change 1 with (inject_Z 1) in H1, H2.
  rewrite <- inject_Z_plus in H1, H2.
  rewrite <- Zlt_Qlt in H1, H2. lia.
Qed.

Lemma Math_round_comp (x y : Q) : x == y -> JS.Math_round x = JS.Math_round y.
Proof.
  intros H. unfold JS.Math_round. apply Qfloor_comp. rewrite H. reflexivity.
Qed.

(** ** [normalizeScores], entry by entry *)

Lemma normalizeScores_length (scores : list RawScore) :
  List.length (normalizeScores scores) = List.length scores.
Proof. unfold normalizeScores. apply List.length_map. Qed.

Lemma normalizeScores_nth (scores : list RawScore) (i : nat) (s : RawScore) :
  nth_error scores i = Some s ->
  nth_error (normalizeScores scores) i
  = Some {| rlabel := label s; rscore := score s;
            confidence := JS.Math_round (score s / total scores * 100) |}.
Proof.
  intros H. unfold normalizeScores.
  rewrite nth_error_map, H. reflexivity.
Qed.

(** ** [normalizeScores] in binary64, entry by entry *)







(** ** The zero-sum guard *)

Lemma sum_scores_all_zero (scores : list RawScore) :
  (forall s, In s scores -> score s == 0) -> sum_scores scores == 0.
Proof.
  induction scores as [|x l IH]; intros H.
  - reflexivity.
  - rewrite sum_scores_cons, (H x (or_introl eq_refl)), IH.
    + ring.
    + intros s Hs. apply H. right. exact Hs.
Qed.

(** C6: on a list whose scores are all zero the divisor is 1, not the zero
    sum (the divisor of [normalizeScores] is never zero), and the output
    holds one entry per input entry, under the same labels in the same
    order, each with confidence 0. *)
Theorem normalizeScores_zero_sum :
  forall scores : list RawScore,
    (forall s, In s scores -> score s == 0) ->
    sum_scores scores == 0 /\
    total scores = 1 /\
    ~ total scores == 0 /\
    List.length (normalizeScores scores) = List.length scores /\
    map rlabel (normalizeScores scores) = map label scores /\
    map confidence (normalizeScores scores) = map (fun _ => 0%Z) scores /\
    forall r, In r (normalizeScores scores) -> confidence r = 0%Z.
Proof.
  intros scores H.
  pose proof (sum_scores_all_zero scores H) as Hsum.
  assert (forall s, In s scores ->
                    JS.Math_round (score s / total scores * 100) = 0%Z) as Hc.
  { intros s Hs. rewrite (Math_round_comp _ 0); [reflexivity|].
    rewrite (H s Hs). unfold Qdiv. ring. }
  split; [exact Hsum|]. split; [apply total_of_zero_sum; exact Hsum|].
  split; [apply total_nonzero|].
  split; [apply normalizeScores_length|].
  unfold normalizeScores. rewrite !map_map. simpl.
  split; [reflexivity|]. split.
  - apply map_ext_in. exact Hc.
  - intros r Hr. apply in_map_iff in Hr. destruct Hr as [s [<- Hs]].
    simpl. apply Hc, Hs.
Qed.

Lemma normalizeScores_zero_sum_witness :
  let scores := [mkRaw "Calm" 0; mkRaw "Stressed" 0;
                 mkRaw "Excited" 0; mkRaw "Neutral" 0] in
  total scores = 1 /\
  map rlabel (normalizeScores scores)
  = ["Calm"; "Stressed"; "Excited"; "Neutral"] /\
  map confidence (normalizeScores scores) = [0; 0; 0; 0]%Z.
Proof.
  assert (forall s, In s [mkRaw "Calm" 0; mkRaw "Stressed" 0;
                          mkRaw "Excited" 0; mkRaw "Neutral" 0] ->
                    score s == 0) as H.
  { intros s Hs. simpl in Hs.
    destruct Hs as [<-|[<-|[<-|[<-|[]]]]]; reflexivity. }
  destruct (normalizeScores_zero_sum _ H) as [_ [H1 [_ [_ [H2 [H3 _]]]]]].
  split; [exact H1|]. split; [exact H2 | exact H3].
Defined.

(** ** Bounds on the confidences *)

Lemma sum_scores_nonneg (l : list RawScore) :
  (forall s, In s l -> 0 <= score s) -> 0 <= sum_scores l.
Proof.
  induction l as [|x l IH]; intros H.
  - unfold sum_scores. simpl. lra.
  - rewrite sum_scores_cons.
    pose proof (H x (or_introl eq_refl)).
    assert (0 <= sum_scores l) by (apply IH; intros s Hs; apply H; now right).
    lra.
Qed.

Lemma score_le_sum (l : list RawScore) (s : RawScore) :
  (forall x, In x l -> 0 <= score x) -> In s l -> score s <= sum_scores l.
Proof.
  induction l as [|x l IH]; intros H Hs; [destruct Hs|].
  rewrite sum_scores_cons.
  pose proof (H x (or_introl eq_refl)) as Hx.
  assert (forall y, In y l -> 0 <= score y) as Hl
      by (intros y Hy; apply H; now right).
  destruct Hs as [->|Hs].
  - pose proof (sum_scores_nonneg l Hl). lra.
  - pose proof (IH Hl Hs). lra.
Qed.

Lemma sum_scores_pos (l : list RawScore) :
  l <> [] -> (forall s, In s l -> 0 < score s) -> 0 < sum_scores l.
Proof.
  destruct l as [|x l]; intros Hne H; [congruence|].
  rewrite sum_scores_cons.
  pose proof (H x (or_introl eq_refl)).
  assert (0 <= sum_scores l).
  { apply sum_scores_nonneg. intros s Hs. apply Qlt_le_weak, H. now right. }
  lra.
Qed.

(** The sum of the rounded shares is within half a unit per entry of the
    exact sum of the shares. *)
Lemma sum_confidence_near (T : Q) (l : list RawScore) :
  let out := map (fun s => {| rlabel := label s; rscore := score s;
                              confidence :=
                                JS.Math_round (score s / T * 100) |}) l in
  let slack := inject_Z (Z.of_nat (List.length l)) * (1 # 2) in
  sum_scores l / T * 100 - slack <= inject_Z (sum_confidence out) /\
  inject_Z (sum_confidence out) <= sum_scores l / T * 100 + slack.
Proof.
  induction l as [|x l IH]; cbv zeta in *.
  - unfold sum_scores. simpl. unfold Qdiv. split; ring_simplify; lra.
  - simpl map. simpl sum_confidence.
    rewrite inject_Z_plus, sum_scores_cons.
    change (List.length (x :: l)) with (S (List.length l)).
    rewrite Nat2Z.inj_succ. unfold Z.succ. rewrite inject_Z_plus.
    change (inject_Z 1) with 1.
    destruct (Math_round_half_up (score x / T * 100)) as [Hlo Hhi].
    destruct IH as [IHlo IHhi].
    unfold Qdiv in *. split; lra.
Qed.

Lemma share_bounds (s T : Q) :
  0 <= s -> s <= T -> 0 < T -> 0 <= s / T * 100 /\ s / T * 100 <= 100.
Proof.
  intros H0 H1 HT.
  assert (0 <= s / T) by (apply Qle_shift_div_l; lra).
  assert (s / T <= 1) by (apply Qle_shift_div_r; lra).
  split; lra.
Qed.

Lemma round_in_range (x : Q) :
  0 <= x -> x <= 100 -> (0 <= JS.Math_round x <= 100)%Z.
Proof.
  intros H0 H1. destruct (Math_round_half_up x) as [Hlo Hhi].
  assert (inject_Z (-1) < inject_Z (JS.Math_round x)) as A
      by (change (inject_Z (-1)) with (-1 # 1); lra).
  assert (inject_Z (JS.Math_round x) < inject_Z 101) as B
      by (change (inject_Z 101) with (101 # 1); lra).
  rewrite <- Zlt_Qlt in A, B. lia.
Qed.




(** ** The ranking *)

Section SortByKey.

Variable A : Type.
Variable key : A -> Z.
Variable cmp : A -> A -> Z.
Hypothesis cmp_key : forall a b, cmp a b = (key b - key a)%Z.

Lemma insert_perm (x : A) (l : list A) :
  Permutation (JS.insert cmp x l) (x :: l).
Proof.
  induction l as [|y ys IH]; simpl.
  - apply Permutation_refl.
  - destruct (cmp x y <=? 0)%Z.
    + apply Permutation_refl.
    + rewrite IH. apply perm_swap.
Qed.

Lemma sort_perm (l : list A) : Permutation (JS.Array_sort cmp l) l.
Proof.
  induction l as [|x l IH]; simpl.
  - constructor.
  - rewrite insert_perm. constructor. exact IH.
Qed.

Lemma insert_sorted (x : A) (l : list A) :
  StronglySorted (fun a b => (key a >= key b)%Z) l ->
  StronglySorted (fun a b => (key a >= key b)%Z) (JS.insert cmp x l).
Proof.
  induction l as [|y ys IH]; intros Hs; simpl.
  - repeat constructor.
  - inversion Hs as [|? ? Hys Hall]; subst.
    destruct (cmp x y <=? 0)%Z eqn:E; rewrite cmp_key in E.
    + apply Z.leb_le in E.
      constructor; [exact Hs|].
      constructor; [lia|].
      eapply Forall_impl; [|exact Hall].
      cbv beta. intros a Ha. lia.
    + apply Z.leb_gt in E.
      constructor; [apply IH; exact Hys|].
      eapply Permutation_Forall; [symmetry; apply insert_perm|].
      constructor; [lia | exact Hall].
Qed.

Lemma sort_sorted (l : list A) :
  StronglySorted (fun a b => (key a >= key b)%Z) (JS.Array_sort cmp l).
Proof.
  induction l as [|x l IH]; simpl.
  - constructor.
  - apply insert_sorted, IH.
Qed.

(** Inserting an element does not change the order among the elements of
    one key: it only overtakes elements of a larger key. *)
Lemma insert_stable (c : Z) (x : A) (l : list A) :
  filter (fun a => (key a =? c)%Z) (JS.insert cmp x l)
  = filter (fun a => (key a =? c)%Z) (x :: l).
Proof.
  induction l as [|y ys IH]; simpl; [reflexivity|].
  destruct (cmp x y <=? 0)%Z eqn:E; [reflexivity|].
  rewrite cmp_key in E. apply Z.leb_gt in E.
  simpl. rewrite IH. simpl.
  destruct (key x =? c)%Z eqn:Ex, (key y =? c)%Z eqn:Ey;
    try reflexivity.
  apply Z.eqb_eq in Ex, Ey. lia.
Qed.

Lemma sort_stable (c : Z) (l : list A) :
  filter (fun a => (key a =? c)%Z) (JS.Array_sort cmp l)
  = filter (fun a => (key a =? c)%Z) l.
Proof.
  induction l as [|x l IH]; simpl; [reflexivity|].
  rewrite insert_stable. simpl. rewrite IH. reflexivity.
Qed.

End SortByKey.

Lemma by_confidence_key (a b : RankedResult) :
  by_confidence a b = (confidence b - confidence a)%Z.
Proof. reflexivity. Qed.

(** C3: for every list of raw scores the ranked output holds the normalized
    entries in non-increasing order of confidence (every entry has a
    confidence at least that of every later entry), and for each confidence
    value the entries carrying it appear in their input order.  The output
    of the pipeline is such a ranked list. *)
Theorem rank_descending_stable :
  forall scores : list RawScore,
    StronglySorted (fun a b => (confidence a >= confidence b)%Z)
                   (rank scores) /\
    Permutation (rank scores) (normalizeScores scores) /\
    (forall c : Z,
        filter (fun r => (confidence r =? c)%Z) (rank scores)
        = filter (fun r => (confidence r =? c)%Z) (normalizeScores scores)) /\
    (forall fileLike rand,
        mockPredictEmotion fileLike rand
        = rank (jittered (seed fileLike) rand)).
Proof.
  intros scores. unfold rank. repeat split.
  - apply (sort_sorted _ confidence), by_confidence_key.
  - apply sort_perm.
  - intros c. apply (sort_stable _ confidence), by_confidence_key.
Qed.

(** The pipeline on [clip5.wav] when every draw of [Math.random] is 0.5
    (no jitter): the two 29s keep the order Calm, Stressed. *)
Example mockPredictEmotion_clip5 :
  map (fun r => (rlabel r, confidence r))
      (mockPredictEmotion (Some (clip5 (Some "audio/wav"))) (fun _ => 0.5))
  = [("Calm", 29); ("Stressed", 29); ("Excited", 28); ("Neutral", 14)]%Z.
Proof. vm_compute. reflexivity. Qed.

(** A later entry of larger confidence overtakes; equal ones do not. *)
Example rank_ties :
  map rlabel (rank [mkRaw "a" 0.1; mkRaw "b" 0.2; mkRaw "c" 0.2;
                    mkRaw "d" 0.5])
  = ["d"; "b"; "c"; "a"].
Proof. vm_compute. reflexivity. Qed.

(** ** The score generator *)

Lemma seed_spec_seed_mod3 (fileLike : option FileLike) :
  (seed fileLike mod 3 = spec_seed fileLike mod 3)%nat /\
  ((seed fileLike + 1) mod 3 = (spec_seed fileLike + 1) mod 3)%nat /\
  ((seed fileLike + 2) mod 3 = (spec_seed fileLike + 2) mod 3)%nat.
Proof.
  destruct fileLike as [[[[|c n]|] t]|]; repeat split; reflexivity.
Qed.

(** C2: whatever the clip handle (present or not), the generator's base
    array holds exactly the four labels Calm, Stressed, Excited, Neutral,
    each once, with Calm = 0.32 + (seed mod 3)*0.05,
    Stressed = 0.28 + ((seed+1) mod 3)*0.04,
    Excited = 0.25 + ((seed+2) mod 3)*0.03 and Neutral = 0.15, where seed is
    the length of the handle's display name, or of the fallback identifier
    when there is none. *)
Theorem base_one_score_per_label :
  forall fileLike : option FileLike,
    let n := spec_seed fileLike in
    base (seed fileLike)
    = [ mkRaw "Calm" (0.32 + inject_Z (Z.of_nat (n mod 3)) * 0.05);
        mkRaw "Stressed" (0.28 + inject_Z (Z.of_nat ((n + 1) mod 3)) * 0.04);
        mkRaw "Excited" (0.25 + inject_Z (Z.of_nat ((n + 2) mod 3)) * 0.03);
        mkRaw "Neutral" 0.15 ] /\
    map label (base (seed fileLike))
    = ["Calm"; "Stressed"; "Excited"; "Neutral"] /\
    NoDup (map label (base (seed fileLike))).
Proof.
  intros fileLike n. subst n.
  destruct (seed_spec_seed_mod3 fileLike) as [E0 [E1 E2]].
  unfold base, mod3. rewrite E0, E1, E2.
  split; [reflexivity|]. split; [reflexivity|].
  simpl map.
  repeat (constructor; [simpl; intuition discriminate|]). constructor.
Qed.

(** C5, as stated, fails: for [clip5.wav] the seed is 9 but the base scores
    are not Calm 0.42, Stressed 0.32, Excited 0.31, Neutral 0.15. *)
Lemma clip5_base_not_calm_042 :
  seed (Some (clip5 (Some "audio/wav"))) = 9%nat /\
  ~ same_scores (base (seed (Some (clip5 (Some "audio/wav")))))
                [ mkRaw "Calm" 0.42; mkRaw "Stressed" 0.32;
                  mkRaw "Excited" 0.31; mkRaw "Neutral" 0.15 ].
Proof.
  split; [reflexivity|].
  intros H. inversion H as [|a b l1 l2 [_ Hcalm] _]; subst.
  vm_compute in Hcalm. discriminate.
Qed.

(** C5, amended: for a clip called [clip5.wav] the seed is 9 and the base
    scores are Calm 0.32, Stressed 0.32, Excited 0.31, Neutral 0.15, in that
    order, whatever the clip's MIME type. *)
Theorem clip5_base_scores :
  forall mime : option string,
    seed (Some (clip5 mime)) = 9%nat /\
    same_scores (base (seed (Some (clip5 mime))))
                [ mkRaw "Calm" 0.32; mkRaw "Stressed" 0.32;
                  mkRaw "Excited" 0.31; mkRaw "Neutral" 0.15 ].
Proof.
  intros mime. split; [reflexivity|].
  change (seed (Some (clip5 mime))) with 9%nat.
  repeat (constructor; [split; [reflexivity | vm_compute; reflexivity]|]).
  constructor.
Qed.

Lemma seed_same_name (f1 f2 : FileLike) :
  name f1 = name f2 -> seed (Some f1) = seed (Some f2).
Proof. intros H. unfold seed. rewrite H. reflexivity. Qed.

(** C9: two clip handles with the same display name get the same base
    array; the arrays after jitter can still differ, as two runs with
    different draws of [Math.random] (both in [0,1)) show. *)
Theorem base_deterministic_jitter_not :
  forall f1 f2 : FileLike,
    name f1 = name f2 ->
    base (seed (Some f1)) = base (seed (Some f2)) /\
    exists rand1 rand2 : nat -> Q,
      (forall k, 0 <= rand1 k /\ rand1 k < 1) /\
      (forall k, 0 <= rand2 k /\ rand2 k < 1) /\
      ~ same_scores (jittered (seed (Some f1)) rand1)
                    (jittered (seed (Some f2)) rand2).
Proof.
  intros f1 f2 H. split; [rewrite (seed_same_name f1 f2 H); reflexivity|].
  exists (fun _ => 0.5), (fun _ => 0.75).
  split; [intros k; split; [discriminate | reflexivity]|].
  split; [intros k; split; [discriminate | reflexivity]|].
  unfold same_scores, jittered, base. simpl JS.map_random.
  intros F.
  inversion F as [|? ? ? ? _ F1]; subst; clear F.
  inversion F1 as [|? ? ? ? _ F2]; subst; clear F1.
  inversion F2 as [|? ? ? ? _ F3]; subst; clear F2.
  inversion F3 as [|? ? ? ? [_ Hneutral] _]; subst; clear F3.
  vm_compute in Hneutral. discriminate.
Qed.

Lemma base_deterministic_jitter_not_witness :
  base (seed (Some (clip5 (Some "audio/wav"))))
  = base (seed (Some (clip5 (Some "audio/mpeg")))).
Proof.
  apply (base_deterministic_jitter_not
           (clip5 (Some "audio/wav")) (clip5 (Some "audio/mpeg"))).
  reflexivity.
Defined.

(** ** The floor of the jittered scores *)

Lemma Math_max_Qmax (a b : Q) : JS.Math_max a b == Qmax a b.
Proof.
  unfold JS.Math_max. destruct (Qle_bool a b) eqn:E.
  - apply Qle_bool_iff in E. symmetry. apply Q.max_r. exact E.
  - assert (~ a <= b) as N
        by (intro L; apply Qle_bool_iff in L; congruence).
    symmetry. apply Q.max_l. lra.
Qed.

Lemma Math_max_ge_l (a b : Q) : a <= JS.Math_max a b.
Proof. rewrite Math_max_Qmax. apply Q.le_max_l. Qed.

Lemma map_random_nth {A B : Type} (f : A -> Q -> B) (rand : nat -> Q)
      (l : list A) (k i : nat) :
  nth_error (JS.map_random f rand k l) i
  = option_map (fun x => f x (rand (k + i)%nat)) (nth_error l i).
Proof.
  revert k i. induction l as [|x l IH]; intros k i.
  - destruct i; reflexivity.
  - destruct i as [|i]; simpl.
    + rewrite Nat.add_0_r. reflexivity.
    + rewrite IH. rewrite Nat.add_succ_r. reflexivity.
Qed.

Lemma map_random_In {A B : Type} (f : A -> Q -> B) (rand : nat -> Q)
      (l : list A) (k : nat) (y : B) :
  In y (JS.map_random f rand k l) -> exists x j, In x l /\ y = f x (rand j).
Proof.
  revert k. induction l as [|x l IH]; intros k Hy; simpl in Hy.
  - destruct Hy.
  - destruct Hy as [<-|Hy].
    + exists x, k. split; [now left | reflexivity].
    + destruct (IH _ Hy) as [x' [j [Hin ->]]].
      exists x', j. split; [now right | reflexivity].
Qed.

Lemma jittered_at_least_floor (n : nat) (rand : nat -> Q) (p : RawScore) :
  In p (jittered n rand) -> 0.05 <= score p.
Proof.
  intros Hp. apply map_random_In in Hp.
  destruct Hp as [b [j [_ ->]]]. simpl. apply Math_max_ge_l.
Qed.

(** C8: for every clip handle and all jitter draws within (-0.06, +0.06),
    the entry of the jittered array at each position keeps the label of the
    base entry and has score max(0.05, base + jitter), hence at least 0.05;
    the sum of the jittered scores is therefore positive and
    [normalizeScores] divides by that sum, not by the fallback 1. *)
Theorem jittered_floor_no_fallback :
  forall (fileLike : option FileLike) (rand : nat -> Q),
    (forall k, -0.06 < jitter (rand k) /\ jitter (rand k) < 0.06) ->
    let out := jittered (seed fileLike) rand in
    (forall i b, nth_error (base (seed fileLike)) i = Some b ->
       exists p, nth_error out i = Some p /\
                 label p = label b /\
                 score p == Qmax 0.05 (score b + jitter (rand i)) /\
                 0.05 <= score p) /\
    List.length out = 4%nat /\
    0 < sum_scores out /\
    total out = sum_scores out.
Proof.
  intros fileLike rand _ out.
  assert (0 < sum_scores out) as Hpos.
  { apply sum_scores_pos; [discriminate|].
    intros s Hs. apply jittered_at_least_floor in Hs.
    apply Qlt_le_trans with (y := 0.05); [reflexivity | exact Hs]. }
  split; [|split; [reflexivity | split; [exact Hpos|]]].
  - intros i b Hb. subst out. unfold jittered.
    rewrite map_random_nth, Hb. simpl.
    eexists. split; [reflexivity|]. simpl.
    split; [reflexivity|]. split; [apply Math_max_Qmax | apply Math_max_ge_l].
  - apply total_of_nonzero_sum. lra.
Qed.

Lemma jittered_floor_no_fallback_witness :
  let out := jittered (seed (Some (clip5 (Some "audio/wav"))))
                      (fun _ => 0.5) in
  map label out = ["Calm"; "Stressed"; "Excited"; "Neutral"] /\
  total out = sum_scores out.
Proof.
  split; [reflexivity|].
  apply (jittered_floor_no_fallback
           (Some (clip5 (Some "audio/wav"))) (fun _ => 0.5)).
  intros k. split; reflexivity.
Defined.

(** ** The upload handler *)

Lemma no_audio_type (file : option FileLike) :
  (forall f t, file = Some f -> type f = Some t ->
               String.prefix "audio" t = false) ->
  type_startsWith_audio file = false.
Proof.
  intros H. unfold type_startsWith_audio.
  destruct file as [f|]; [|reflexivity].
  destruct (type f) as [t|] eqn:E; [|reflexivity].
  apply (H f t eq_refl E).
Qed.

Lemma handleFile_rejected (createObjectURL : FileLike -> string)
      (file : option FileLike) (st : AppState) :
  type_startsWith_audio file = false ->
  handleFile createObjectURL file st
  = (setError "Please upload an audio file (wav, m4a, mp3)." st, []).
Proof. intros H. unfold handleFile. rewrite H. reflexivity. Qed.

(** C7: a file whose MIME type does not begin with "audio" (or that has no
    MIME type, or no file at all) makes [handleFile] perform no external
    call, in particular no call of the analysis pipeline, and leaves the
    error message exactly "Please upload an audio file (wav, m4a, mp3).". *)
Theorem handleFile_non_audio_error :
  forall (createObjectURL : FileLike -> string)
         (file : option FileLike) (st : AppState),
    (forall f t, file = Some f -> type f = Some t ->
                 String.prefix "audio" t = false) ->
    snd (handleFile createObjectURL file st) = [] /\
    (forall f, ~ In (InvokePipeline f)
                    (snd (handleFile createObjectURL file st))) /\
    error (fst (handleFile createObjectURL file st))
    = "Please upload an audio file (wav, m4a, mp3).".
Proof.
  intros createObjectURL file st H.
  rewrite (handleFile_rejected _ _ _ (no_audio_type _ H)). simpl.
  repeat split. intros f [].
Qed.

Lemma handleFile_non_audio_error_witness :
  error (fst (handleFile (fun _ => "blob:1")
                         (Some (mkFile (Some "cat.png") (Some "image/png")))
                         initial))
  = "Please upload an audio file (wav, m4a, mp3).".
Proof.
  apply (handleFile_non_audio_error
           (fun _ => "blob:1")
           (Some (mkFile (Some "cat.png") (Some "image/png"))) initial).
  intros f t Hf Ht. injection Hf as <-. injection Ht as <-. reflexivity.
Defined.

(** C10: a file whose MIME type does not begin with "audio" leaves the
    audio URL, the displayed audio name, the results, the status (and the
    recording flag) as they were; the state after [handleFile] is the state
    before it with the error message replaced. *)
Theorem handleFile_non_audio_frame :
  forall (createObjectURL : FileLike -> string)
         (file : option FileLike) (st : AppState),
    (forall f t, file = Some f -> type f = Some t ->
                 String.prefix "audio" t = false) ->
    let st' := fst (handleFile createObjectURL file st) in
    audioUrl st' = audioUrl st /\
    audioName st' = audioName st /\
    results st' = results st /\
    status st' = status st /\
    isRecording st' = isRecording st /\
    st' = setError (error st') st.
Proof.
  intros createObjectURL file st H.
  rewrite (handleFile_rejected _ _ _ (no_audio_type _ H)). simpl.
  repeat split.
Qed.

Lemma handleFile_non_audio_frame_witness :
  let st := {| audioUrl := "blob:7"; audioName := Some "a.wav";
               results := [mkRanked "Calm" 0.4 100]; status := done;
               error := ""; isRecording := false |} in
  let st' := fst (handleFile (fun _ => "blob:8")
                             (Some (mkFile (Some "notes.txt")
                                           (Some "text/plain"))) st) in
  audioUrl st' = "blob:7" /\ audioName st' = Some "a.wav" /\
  results st' = [mkRanked "Calm" 0.4 100] /\ status st' = done.
Proof.
  pose proof (handleFile_non_audio_frame
                (fun _ => "blob:8")
                (Some (mkFile (Some "notes.txt") (Some "text/plain")))
                {| audioUrl := "blob:7"; audioName := Some "a.wav";
                   results := [mkRanked "Calm" 0.4 100]; status := done;
                   error := ""; isRecording := false |}) as H.
  destruct H as [H1 [H2 [H3 [H4 _]]]].
  - intros f t Hf Ht. injection Hf as <-. injection Ht as <-. reflexivity.
  - repeat split; assumption.
Defined.

(** * Further properties of the code *)

(** ** [normalizeScores] on any number of scores *)

Lemma normalizeScores_In (scores : list RawScore) (r : RankedResult) :
  In r (normalizeScores scores) ->
  exists s, In s scores /\ rlabel r = label s /\ rscore r = score s /\
            confidence r = JS.Math_round (rscore r / total scores * 100).
Proof.
  unfold normalizeScores. intros H. apply in_map_iff in H.
  destruct H as [s [<- Hs]]. exists s. repeat split. exact Hs.
Qed.

Lemma total_pos (scores : list RawScore) :
  0 <= sum_scores scores -> 0 < total scores.
Proof.
  intros H. unfold total, JS.or_default.
  destruct (Qeq_bool (sum_scores scores) 0) eqn:E; [reflexivity|].
  assert (~ sum_scores scores == 0) as N
      by (intro Z0; apply Qeq_bool_iff in Z0; congruence).
  lra.
Qed.

Lemma score_le_total (scores : list RawScore) (s : RawScore) :
  (forall x, In x scores -> 0 <= score x) -> In s scores ->
  score s <= total scores.
Proof.
  intros Hnn Hs. pose proof (score_le_sum scores s Hnn Hs) as Hle.
  unfold total, JS.or_default.
  destruct (Qeq_bool (sum_scores scores) 0) eqn:E; [|exact Hle].
  apply Qeq_bool_iff in E. lra.
Qed.

Lemma rank_In (scores : list RawScore) (r : RankedResult) :
  In r (rank scores) <-> In r (normalizeScores scores).
Proof.
  unfold rank. split; apply Permutation_in;
    [|symmetry]; apply sort_perm.
Qed.

Lemma share_range (scores : list RawScore) (s : RawScore) :
  (forall x, In x scores -> 0 <= score x) -> In s scores ->
  (0 <= JS.Math_round (score s / total scores * 100) <= 100)%Z.
Proof.
  intros Hnn Hs.
  destruct (share_bounds (score s) (total scores)).
  - apply Hnn, Hs.
  - apply score_le_total; assumption.
  - apply total_pos, sum_scores_nonneg, Hnn.
  - apply round_in_range; assumption.
Qed.

Lemma rank_confidence_range (scores : list RawScore) (r : RankedResult) :
  (forall x, In x scores -> 0 <= score x) -> In r (rank scores) ->
  (0 <= confidence r <= 100)%Z.
Proof.
  intros Hnn Hr. apply rank_In in Hr.
  destruct (normalizeScores_In scores r Hr) as [s [Hs [_ [Hsc ->]]]].
  rewrite Hsc. apply share_range; assumption.
Qed.

(** Scores that are not negative, however many and even all zero, give
    confidences between 0 and 100. *)
Theorem normalizeScores_confidence_range :
  forall scores : list RawScore,
    (forall s, In s scores -> 0 <= score s) ->
    forall r, In r (normalizeScores scores) -> (0 <= confidence r <= 100)%Z.
Proof.
  intros scores Hnn r Hr.
  destruct (normalizeScores_In scores r Hr) as [s [Hs [_ [Hsc ->]]]].
  rewrite Hsc.
  destruct (share_bounds (score s) (total scores)).
  - apply Hnn, Hs.
  - apply score_le_total; assumption.
  - apply total_pos, sum_scores_nonneg, Hnn.
  - apply round_in_range; assumption.
Qed.

Lemma normalizeScores_confidence_range_witness :
  Forall (fun r => (0 <= confidence r <= 100)%Z)
         (normalizeScores [mkRaw "a" 0; mkRaw "b" 3; mkRaw "c" 0.5;
                           mkRaw "d" 0; mkRaw "e" 7]).
Proof.
  apply Forall_forall.
  apply normalizeScores_confidence_range.
  intros s Hs. simpl in Hs.
  destruct Hs as [<-|[<-|[<-|[<-|[<-|[]]]]]]; discriminate.
Defined.

(** For at most 1000 scores, none negative, adding up to more than zero
    and to at most 2^1023, the confidences add up to 100 within half a
    point per entry: at least [100 - n/2] and at most [100 + n/2].  Proved
    in exact arithmetic; under these conditions the double computation is
    within 10^-8 of the exact shares in total, which the bounds on an
    integer absorb. *)
Theorem normalizeScores_sum_drift :
  forall scores : list RawScore,
    (forall s, In s scores -> 0 <= score s) ->
    0 < sum_scores scores ->
    sum_scores scores <= inject_Z (2 ^ 1023) ->
    (List.length scores <= 1000)%nat ->
    let n := Z.of_nat (List.length scores) in
    (200 - n <= 2 * sum_confidence (normalizeScores scores) <= 200 + n)%Z.
Proof.
  intros scores _ Hsum _ _ n. subst n.
  assert (~ sum_scores scores == 0) as Hne by lra.
  pose proof (total_of_nonzero_sum scores Hne) as HT.
  assert (sum_scores scores / sum_scores scores * 100 == 100) as E
      by (field; exact Hne).
  destruct (sum_confidence_near (total scores) scores) as [Hlo Hhi].
  fold (normalizeScores scores) in Hlo, Hhi. rewrite HT, E in Hlo, Hhi.
  set (C := sum_confidence (normalizeScores scores)) in *.
  set (n := Z.of_nat (List.length scores)) in *.
  assert (inject_Z (200 - n) <= inject_Z (2 * C)) as A.
  { unfold Z.sub. rewrite inject_Z_plus, inject_Z_opp, inject_Z_mult.
    change (inject_Z 200) with 200. change (inject_Z 2) with 2. lra. }
  assert (inject_Z (2 * C) <= inject_Z (200 + n)) as B.
  { rewrite inject_Z_plus, inject_Z_mult.
    change (inject_Z 200) with 200. change (inject_Z 2) with 2. lra. }
  rewrite <- Zle_Qle in A, B. lia.
Qed.

Lemma normalizeScores_sum_drift_witness :
  (197 <= 2 * sum_confidence
                (normalizeScores [mkRaw "a" 1; mkRaw "b" 1; mkRaw "c" 1])
   <= 203)%Z.
Proof.
  apply (normalizeScores_sum_drift [mkRaw "a" 1; mkRaw "b" 1; mkRaw "c" 1]).
  - intros s Hs. simpl in Hs. destruct Hs as [<-|[<-|[<-|[]]]]; discriminate.
  - reflexivity.
  - vm_compute. discriminate.
  - simpl. lia.
Defined.

(** In binary64 the lower bound is met: the exact shares of 0.043 and 0.157
    are 21.5 and 78.5, the code's doubles fall just short of both and the
    confidences 21 and 78 add up to 99.  The two literals are the doubles
    nearest to 0.043 and 0.157. *)
Example normalizeScores_sum_99 :
  map F64.confidence
      (F64.normalizeScores [F64.mkRaw "a" 0x1.604189374bc6ap-5;
                            F64.mkRaw "b" 0x1.4189374bc6a7fp-3])
  = [F64.Int 21; F64.Int 78].
Proof. vm_compute. reflexivity. Qed.




(** ** The ranking, continued *)

Section SortByKeyMore.

Variable A : Type.
Variable key : A -> Z.
Variable cmp : A -> A -> Z.
Hypothesis cmp_key : forall a b, cmp a b = (key b - key a)%Z.

Lemma sort_of_sorted (l : list A) :
  StronglySorted (fun a b => (key a >= key b)%Z) l ->
  JS.Array_sort cmp l = l.
Proof.
  induction l as [|x l IH]; intros Hs; [reflexivity|].
  inversion Hs as [|? ? Hl Hall]; subst.
  simpl. rewrite (IH Hl).
  destruct l as [|y ys]; [reflexivity|]. simpl.
  inversion Hall as [|? ? Hxy _]; subst.
  rewrite cmp_key.
  destruct (key y - key x <=? 0)%Z eqn:E; [reflexivity|].
  apply Z.leb_gt in E. lia.
Qed.

(** Where the first element passing a test sits. *)
Lemma filter_head_split (p : A -> bool) (l : list A) (x : A)
      (rest : list A) :
  filter p l = x :: rest ->
  exists pre post, l = (pre ++ x :: post)%list /\
                   Forall (fun a => p a = false) pre /\ p x = true.
Proof.
  induction l as [|y ys IH]; simpl; intros H; [discriminate|].
  destruct (p y) eqn:E.
  - injection H as -> _. exists [], ys. repeat split; [constructor | exact E].
  - destruct (IH H) as [pre [post [-> [Hpre Hx]]]].
    exists (y :: pre), post. repeat split; [constructor|]; assumption.
Qed.

(** The first element of the sorted array is the earliest element of the
    input among those of the greatest key. *)
Lemma sort_head (l : list A) (top : A) (rest : list A) :
  JS.Array_sort cmp l = top :: rest ->
  exists pre post,
    l = (pre ++ top :: post)%list /\
    Forall (fun a => (key a < key top)%Z) pre /\
    Forall (fun a => (key a <= key top)%Z) post.
Proof.
  intros H.
  pose proof (sort_sorted A key cmp cmp_key l) as Hs.
  pose proof (sort_perm A cmp l) as Hp.
  pose proof (sort_stable A key cmp cmp_key (key top) l) as Hst.
  rewrite H in Hs, Hp, Hst.
  assert (forall a, In a l -> (key a <= key top)%Z) as Hmax.
  { intros a Ha. apply (Permutation_in _ (Permutation_sym Hp)) in Ha.
    inversion Hs as [|? ? _ Hall]; subst.
    destruct Ha as [->|Ha]; [lia|].
    rewrite Forall_forall in Hall. specialize (Hall a Ha). lia. }
  simpl in Hst. rewrite Z.eqb_refl in Hst. symmetry in Hst.
  destruct (filter_head_split _ _ _ _ Hst) as [pre [post [-> [Hpre _]]]].
  exists pre, post. repeat split.
  - rewrite Forall_forall in *. intros a Ha.
    specialize (Hpre a Ha). apply Z.eqb_neq in Hpre.
    assert (key a <= key top)%Z
      by (apply Hmax, in_or_app; left; exact Ha).
    lia.
  - rewrite Forall_forall. intros a Ha.
    apply Hmax, in_or_app. right. right. exact Ha.
Qed.

End SortByKeyMore.

Lemma topEmotion_head (results : list RankedResult) :
  topEmotion results = hd_error results.
Proof. destruct results; reflexivity. Qed.

(** Ranking a second time changes nothing: sorting an array that is
    already in ranked order returns it as it is. *)
Theorem rank_sort_again :
  forall scores : list RawScore,
    JS.Array_sort by_confidence (rank scores) = rank scores.
Proof.
  intros scores. apply (sort_of_sorted _ confidence).
  - apply by_confidence_key.
  - unfold rank. apply (sort_sorted _ confidence), by_confidence_key.
Qed.

(** The top emotion of a ranked list is the entry of greatest confidence;
    among several of that confidence it is the one that comes first in the
    input: every entry before it has a strictly smaller confidence, every
    entry after it a smaller or equal one.  It is missing only for an
    empty input. *)
Theorem topEmotion_rank :
  forall scores : list RawScore,
    (topEmotion (rank scores) = None <-> scores = []) /\
    forall top, topEmotion (rank scores) = Some top ->
      exists pre post,
        normalizeScores scores = (pre ++ top :: post)%list /\
        Forall (fun r => (confidence r < confidence top)%Z) pre /\
        Forall (fun r => (confidence r <= confidence top)%Z) post.
Proof.
  intros scores. rewrite topEmotion_head. split.
  - split.
    + intros H. destruct (rank scores) as [|r l] eqn:E; [|discriminate].
      assert (List.length (rank scores) = List.length scores) as HL.
      { unfold rank.
        rewrite (Permutation_length (sort_perm _ by_confidence _)).
        apply normalizeScores_length. }
      rewrite E in HL. destruct scores; [reflexivity | discriminate].
    + intros ->. reflexivity.
  - intros top H. destruct (rank scores) as [|r l] eqn:E; [discriminate|].
    injection H as ->.
    apply (sort_head _ confidence by_confidence by_confidence_key _ _ _ E).
Qed.

Lemma topEmotion_rank_witness :
  let scores := [mkRaw "a" 0.1; mkRaw "b" 0.2; mkRaw "c" 0.2] in
  option_map rlabel (topEmotion (rank scores)) = Some "b" /\
  exists top pre post,
    normalizeScores scores = (pre ++ top :: post)%list /\
    Forall (fun r => (confidence r < confidence top)%Z) pre.
Proof.
  split; [vm_compute; reflexivity|].
  destruct (topEmotion_rank [mkRaw "a" 0.1; mkRaw "b" 0.2; mkRaw "c" 0.2])
    as [_ H].
  destruct (topEmotion
              (rank [mkRaw "a" 0.1; mkRaw "b" 0.2; mkRaw "c" 0.2]))
    as [top|] eqn:E; [|vm_compute in E; discriminate].
  destruct (H top eq_refl) as [pre [post [H1 [H2 _]]]].
  exists top, pre, post. split; assumption.
Defined.

(** ** The score generator, continued *)

Lemma mod3_range (n : nat) : 0 <= mod3 n /\ mod3 n <= 2.
Proof.
  unfold mod3.
  assert (n mod 3 < 3)%nat as H by (apply Nat.mod_upper_bound; discriminate).
  split.
  - change 0 with (inject_Z 0). rewrite <- Zle_Qle. lia.
  - change 2 with (inject_Z 2). rewrite <- Zle_Qle. lia.
Qed.

Lemma mod3_congr (n m k : nat) :
  (n mod 3 = m mod 3)%nat -> mod3 (n + k) = mod3 (m + k).
Proof.
  intros H. unfold mod3.
  rewrite <- (Nat.Div0.add_mod_idemp_l n), <- (Nat.Div0.add_mod_idemp_l m), H.
  reflexivity.
Qed.

(** Only the seed modulo 3 matters: two names whose lengths leave the same
    remainder modulo 3 get the same base array, so the generator has three
    base arrays in all. *)
Theorem base_depends_on_seed_mod3 :
  forall n m : nat,
    (n mod 3 = m mod 3)%nat ->
    base n = base m /\
    (base n = base 0 \/ base n = base 1 \/ base n = base 2).
Proof.
  intros n m H.
  assert (forall a b, (a mod 3 = b mod 3)%nat -> base a = base b) as Hb.
  { intros a b E. unfold base.
    rewrite (mod3_congr a b 1 E), (mod3_congr a b 2 E).
    pose proof (mod3_congr a b 0 E) as E0. rewrite !Nat.add_0_r in E0.
    rewrite E0. reflexivity. }
  split; [apply Hb, H|].
  assert (n mod 3 < 3)%nat as Hlt
      by (apply Nat.mod_upper_bound; discriminate).
  destruct (n mod 3)%nat as [|[|[|k]]] eqn:E; [| | |lia].
  - left. apply Hb. rewrite E. reflexivity.
  - right. left. apply Hb. rewrite E. reflexivity.
  - right. right. apply Hb. rewrite E. reflexivity.
Qed.

Lemma base_depends_on_seed_mod3_witness :
  base (String.length "clip5.wav") = base (String.length "microphone.webm").
Proof.
  apply (base_depends_on_seed_mod3 (String.length "clip5.wav")
                                   (String.length "microphone.webm")).
  reflexivity.
Defined.

Lemma jitter_range (r : Q) :
  0 <= r -> r < 1 -> -0.06 <= jitter r /\ jitter r < 0.06.
Proof. intros H0 H1. unfold jitter. split; lra. Qed.

Lemma base_score_range (n : nat) (b : RawScore) :
  In b (base n) -> 0.15 <= score b /\ score b <= 0.42.
Proof.
  destruct (mod3_range n), (mod3_range (n + 1)), (mod3_range (n + 2)).
  unfold base. simpl.
  intros [<-|[<-|[<-|[<-|[]]]]]; simpl; split; lra.
Qed.

Lemma Math_max_floor_idle (a : Q) : 0.05 <= a -> JS.Math_max 0.05 a = a.
Proof.
  intros H. unfold JS.Math_max.
  destruct (Qle_bool 0.05 a) eqn:E; [reflexivity|].
  apply Qle_bool_iff in H. congruence.
Qed.

(** With every draw of [Math.random] in [0,1) the floor 0.05 is never what
    [Math.max] returns: each jittered score is the base score plus its
    jitter, and lies strictly between 0.08 and 0.49. *)
Theorem jittered_floor_idle :
  forall (n : nat) (rand : nat -> Q),
    (forall k, 0 <= rand k /\ rand k < 1) ->
    forall i b, nth_error (base n) i = Some b ->
      exists p, nth_error (jittered n rand) i = Some p /\
                label p = label b /\
                score p = score b + jitter (rand i) /\
                0.08 < score p /\ score p < 0.49.
Proof.
  intros n rand Hr i b Hb.
  unfold jittered. rewrite map_random_nth, Hb. simpl.
  eexists. split; [reflexivity|]. simpl.
  destruct (base_score_range n b (nth_error_In _ _ Hb)) as [Hlo Hhi].
  destruct (Hr i) as [H0 H1].
  destruct (jitter_range (rand i) H0 H1) as [Jlo Jhi].
  rewrite Math_max_floor_idle by lra.
  repeat split; lra.
Qed.

Lemma jittered_floor_idle_witness :
  exists p, nth_error (jittered 9 (fun _ => 0)) 3 = Some p /\
            score p = 0.15 + jitter 0.
Proof.
  destruct (jittered_floor_idle 9 (fun _ => 0)) with (i := 3%nat)
                                                     (b := mkRaw "Neutral" 0.15)
    as [p [H1 [_ [H2 _]]]].
  - intros k. split; [discriminate | reflexivity].
  - reflexivity.
  - exists p. split; [exact H1 | exact H2].
Defined.

(** ** The output of the pipeline *)

Lemma sum_confidence_perm (l1 l2 : list RankedResult) :
  Permutation l1 l2 -> sum_confidence l1 = sum_confidence l2.
Proof.
  induction 1; simpl; lia.
Qed.

Lemma normalizeScores_labels (scores : list RawScore) :
  map rlabel (normalizeScores scores) = map label scores.
Proof.
  unfold normalizeScores. rewrite map_map. reflexivity.
Qed.

Lemma jittered_labels (n : nat) (rand : nat -> Q) :
  map label (jittered n rand) = ["Calm"; "Stressed"; "Excited"; "Neutral"].
Proof. reflexivity. Qed.

Lemma jittered_nonneg (n : nat) (rand : nat -> Q) (s : RawScore) :
  In s (jittered n rand) -> 0 <= score s.
Proof.
  intros H. apply jittered_at_least_floor in H.
  apply Qle_trans with (y := 0.05); [discriminate | exact H].
Qed.

Lemma jittered_sum_pos (n : nat) (rand : nat -> Q) :
  0 < sum_scores (jittered n rand).
Proof.
  apply sum_scores_pos; [discriminate|].
  intros s Hs. apply jittered_at_least_floor in Hs.
  apply Qlt_le_trans with (y := 0.05); [reflexivity | exact Hs].
Qed.

Lemma mockPredictEmotion_perm (fileLike : option FileLike)
      (rand : nat -> Q) :
  Permutation (mockPredictEmotion fileLike rand)
              (normalizeScores (jittered (seed fileLike) rand)).
Proof. unfold mockPredictEmotion, rank. apply sort_perm. Qed.

(** The entries of the pipeline's output. *)
Lemma mockPredictEmotion_entries (fileLike : option FileLike)
      (rand : nat -> Q) :
  List.length (mockPredictEmotion fileLike rand) = 4%nat /\
  Permutation (map rlabel (mockPredictEmotion fileLike rand))
              ["Calm"; "Stressed"; "Excited"; "Neutral"] /\
  (forall r, In r (mockPredictEmotion fileLike rand) ->
             (0 <= confidence r <= 100)%Z).
Proof.
  pose proof (mockPredictEmotion_perm fileLike rand) as HP.
  repeat split.
  - rewrite (Permutation_length HP), normalizeScores_length. reflexivity.
  - rewrite (Permutation_map rlabel HP), normalizeScores_labels.
    rewrite jittered_labels. apply Permutation_refl.
  - apply (rank_confidence_range (jittered (seed fileLike) rand));
      [intros s; apply jittered_nonneg | assumption].
  - apply (rank_confidence_range (jittered (seed fileLike) rand));
      [intros s; apply jittered_nonneg | assumption].
Qed.

Lemma mockPredictEmotion_nonempty (fileLike : option FileLike)
      (rand : nat -> Q) :
  mockPredictEmotion fileLike rand <> [].
Proof.
  intros H. destruct (mockPredictEmotion_entries fileLike rand) as [HL _].
  rewrite H in HL. discriminate HL.
Qed.

(** Whatever the clip and the draws, the pipeline returns four entries,
    one for each of the labels Calm, Stressed, Excited and Neutral, with
    confidences between 0 and 100 that add up to 98, 99, 100, 101 or 102. *)
Theorem mockPredictEmotion_shape :
  forall (fileLike : option FileLike) (rand : nat -> Q),
    let out := mockPredictEmotion fileLike rand in
    List.length out = 4%nat /\
    Permutation (map rlabel out) ["Calm"; "Stressed"; "Excited"; "Neutral"] /\
    (forall r, In r out -> (0 <= confidence r <= 100)%Z) /\
    (98 <= sum_confidence out <= 102)%Z.
Proof.
  intros fileLike rand out. subst out.
  destruct (mockPredictEmotion_entries fileLike rand) as [HL [HP HC]].
  split; [exact HL|]. split; [exact HP|]. split; [exact HC|].
  rewrite (sum_confidence_perm _ _ (mockPredictEmotion_perm fileLike rand)).
  set (js := jittered (seed fileLike) rand).
  pose proof (jittered_sum_pos (seed fileLike) rand) as Hpos. fold js in Hpos.
  assert (~ sum_scores js == 0) as Hne by lra.
  pose proof (total_of_nonzero_sum js Hne) as HT.
  assert (sum_scores js / sum_scores js * 100 == 100) as E
      by (field; exact Hne).
  destruct (sum_confidence_near (total js) js) as [Hlo Hhi].
  fold (normalizeScores js) in Hlo, Hhi. rewrite HT, E in Hlo, Hhi.
  change (inject_Z (Z.of_nat (List.length js))) with 4 in Hlo, Hhi.
  set (C := sum_confidence (normalizeScores js)) in *.
  assert (inject_Z 98 <= inject_Z C) as A
      by (change (inject_Z 98) with 98; lra).
  assert (inject_Z C <= inject_Z 102) as B
      by (change (inject_Z 102) with 102; lra).
  rewrite <- Zle_Qle in A, B. lia.
Qed.

Lemma Math_round_gap (x y : Q) :
  x + 1 <= y -> (JS.Math_round x < JS.Math_round y)%Z.
Proof.
  intros H.
  destruct (Math_round_half_up x) as [Hx _].
  destruct (Math_round_half_up y) as [_ Hy].
  rewrite Zlt_Qlt. lra.
Qed.

Lemma share_gap (x y T : Q) :
  0 < T -> T <= (y - x) * 100 -> x / T * 100 + 1 <= y / T * 100.
Proof.
  intros HT H.
  assert (1 <= ((y - x) * 100) / T) as G
      by (apply Qle_shift_div_l; lra).
  unfold Qdiv in *. lra.
Qed.

(** With every draw in [0,1), Neutral gets a strictly smaller confidence
    than Calm. *)
Lemma neutral_below_calm (n : nat) (rand : nat -> Q) :
  (forall k, 0 <= rand k /\ rand k < 1) ->
  exists rc rs re ru,
    normalizeScores (jittered n rand) = [rc; rs; re; ru] /\
    rlabel rc = "Calm" /\ rlabel rs = "Stressed" /\
    rlabel re = "Excited" /\ rlabel ru = "Neutral" /\
    (confidence ru < confidence rc)%Z.
Proof.
  intros Hr.
  pose proof (jittered_sum_pos n rand) as Hpos.
  assert (total (jittered n rand) = sum_scores (jittered n rand)) as HT
      by (apply total_of_nonzero_sum; lra).
  unfold normalizeScores. rewrite HT. clear HT.
  destruct (mod3_range n), (mod3_range (n + 1)), (mod3_range (n + 2)).
  destruct (jitter_range _ (proj1 (Hr 0%nat)) (proj2 (Hr 0%nat))).
  destruct (jitter_range _ (proj1 (Hr 1%nat)) (proj2 (Hr 1%nat))).
  destruct (jitter_range _ (proj1 (Hr 2%nat)) (proj2 (Hr 2%nat))).
  destruct (jitter_range _ (proj1 (Hr 3%nat)) (proj2 (Hr 3%nat))).
  revert Hpos. unfold jittered, base. simpl JS.map_random.
  unfold jitter_item. simpl label. simpl score.
  rewrite !Math_max_floor_idle by lra.
  set (sc := 0.32 + mod3 n * 0.05 + jitter (rand 0%nat)).
  set (ss := 0.28 + mod3 (n + 1) * 0.04 + jitter (rand 1%nat)).
  set (se := 0.25 + mod3 (n + 2) * 0.03 + jitter (rand 2%nat)).
  set (su := 0.15 + jitter (rand 3%nat)).
  set (T := sum_scores _). intros Hpos.
  assert (T == sc + ss + se + su) as ET
      by (subst T; unfold sum_scores; simpl; ring).
  simpl map. do 4 eexists. split; [reflexivity|].
  repeat split. simpl.
  apply Math_round_gap, share_gap; [exact Hpos|].
  rewrite ET. subst sc ss se su. lra.
Qed.

Lemma rank_top_max (scores : list RawScore) (top : RankedResult) :
  topEmotion (rank scores) = Some top ->
  In top (normalizeScores scores) /\
  forall r, In r (normalizeScores scores) ->
            (confidence r <= confidence top)%Z.
Proof.
  rewrite topEmotion_head. intros H.
  destruct (rank scores) as [|r0 l] eqn:E; [discriminate|].
  injection H as ->.
  destruct (sort_head _ confidence by_confidence by_confidence_key _ _ _ E)
    as [pre [post [Hsplit [Hpre Hpost]]]].
  rewrite Hsplit. split.
  - apply in_or_app. right. left. reflexivity.
  - intros r Hin. apply in_app_or in Hin.
    rewrite Forall_forall in Hpre, Hpost.
    destruct Hin as [Hin|[->|Hin]];
      [specialize (Hpre r Hin) | | specialize (Hpost r Hin)]; lia.
Qed.

Lemma pipeline_top_exists (fileLike : option FileLike) (rand : nat -> Q) :
  exists top, topEmotion (mockPredictEmotion fileLike rand) = Some top.
Proof.
  pose proof (mockPredictEmotion_nonempty fileLike rand) as H.
  rewrite topEmotion_head.
  destruct (mockPredictEmotion fileLike rand) as [|r l]; [congruence|].
  exists r. reflexivity.
Qed.

Lemma pipeline_top_not_neutral (fileLike : option FileLike)
      (rand : nat -> Q) (top : RankedResult) :
  (forall k, 0 <= rand k /\ rand k < 1) ->
  topEmotion (mockPredictEmotion fileLike rand) = Some top ->
  rlabel top <> "Neutral".
Proof.
  intros Hr Htop. unfold mockPredictEmotion in Htop.
  destruct (rank_top_max _ _ Htop) as [Hin Hmax].
  destruct (neutral_below_calm (seed fileLike) rand Hr)
    as [rc [rs [re [ru [Hn [Lc [Ls [Le [Lu Hlt]]]]]]]]].
  rewrite Hn in Hin, Hmax.
  assert (confidence rc <= confidence top)%Z as Hc
      by (apply Hmax; left; reflexivity).
  intros Hlabel.
  destruct Hin as [<-|[<-|[<-|[<-|[]]]]]; try congruence. lia.
Qed.

(** With every draw of [Math.random] in [0,1), the top emotion of the
    pipeline's output exists and is never Neutral. *)
Theorem top_emotion_never_neutral :
  forall (fileLike : option FileLike) (rand : nat -> Q),
    (forall k, 0 <= rand k /\ rand k < 1) ->
    exists top,
      topEmotion (mockPredictEmotion fileLike rand) = Some top /\
      rlabel top <> "Neutral".
Proof.
  intros fileLike rand Hr.
  destruct (pipeline_top_exists fileLike rand) as [top Htop].
  exists top. split; [exact Htop|].
  apply (pipeline_top_not_neutral fileLike rand top Hr Htop).
Qed.

Lemma top_emotion_never_neutral_witness :
  exists top,
    topEmotion (mockPredictEmotion None (fun _ => 0.25)) = Some top /\
    rlabel top <> "Neutral".
Proof.
  apply (top_emotion_never_neutral None (fun _ => 0.25)).
  intros k. split; [discriminate | reflexivity].
Defined.

(** ** What is rendered *)

Lemma label_in_tables (l : string) :
  In l ["Calm"; "Stressed"; "Excited"; "Neutral"] ->
  exists color cue tips,
    lookup l EMOTION_COLORS = Some color /\
    lookup l cues = Some cue /\
    lookup l suggestions = Some tips /\
    List.length tips = 3%nat.
Proof.
  simpl. intros [<-|[<-|[<-|[<-|[]]]]];
    do 3 eexists; repeat split; reflexivity.
Qed.

(** Every entry the pipeline returns has a colour, a cue and a list of
    three suggestions: indexing the three tables with its label never
    yields [undefined]. *)
Theorem tables_cover_pipeline_labels :
  forall (fileLike : option FileLike) (rand : nat -> Q) (r : RankedResult),
    In r (mockPredictEmotion fileLike rand) ->
    exists color cue tips,
      lookup (rlabel r) EMOTION_COLORS = Some color /\
      lookup (rlabel r) cues = Some cue /\
      lookup (rlabel r) suggestions = Some tips /\
      List.length tips = 3%nat.
Proof.
  intros fileLike rand r Hr.
  destruct (mockPredictEmotion_entries fileLike rand) as [_ [HP _]].
  apply label_in_tables.
  apply (Permutation_in _ HP). apply in_map. exact Hr.
Qed.

Lemma tables_cover_pipeline_labels_witness :
  Forall (fun r => exists tips, lookup (rlabel r) suggestions = Some tips /\
                                List.length tips = 3%nat)
         (mockPredictEmotion None (fun _ => 0.5)).
Proof.
  apply Forall_forall. intros r Hr.
  destruct (tables_cover_pipeline_labels None (fun _ => 0.5) r Hr)
    as [_ [_ [tips [_ [_ [H1 H2]]]]]].
  exists tips. split; assumption.
Defined.

(** A label outside the four has no entry: the tables cover nothing
    else. *)
Example tables_miss_other_label :
  lookup "Sad" EMOTION_COLORS = None /\ lookup "Sad" cues = None /\
  lookup "Sad" suggestions = None /\ lookup "calm" suggestions = None.
Proof. repeat split. Qed.

Lemma to_int_not_nil (z : Z) :
  Z.to_int z <> Decimal.Pos Decimal.Nil /\
  Z.to_int z <> Decimal.Neg Decimal.Nil.
Proof.
  destruct z as [|p|p]; simpl; split; try discriminate;
    intros H; injection H as H; exact (Unsigned.to_uint_nonnil p H).
Qed.

Lemma number_to_string_inj (a b : Z) :
  number_to_string a = number_to_string b -> a = b.
Proof.
  unfold number_to_string. intros H.
  apply (f_equal NilZero.int_of_string) in H.
  destruct (to_int_not_nil a), (to_int_not_nil b).
  rewrite !NilZero.isi in H by assumption.
  injection H as H. apply (f_equal Z.of_int) in H.
  rewrite !DecimalZ.of_to in H. exact H.
Qed.

Lemma append_char_inj (c : Ascii.ascii) (s1 s2 : string) :
  s1 ++ String c "" = s2 ++ String c "" -> s1 = s2.
Proof.
  revert s2. induction s1 as [|a s1 IH]; intros [|b s2] H; simpl in H.
  - reflexivity.
  - injection H as _ H. destruct s2; discriminate.
  - injection H as _ H. destruct s1; discriminate.
  - injection H as -> H. f_equal. apply IH, H.
Qed.

Lemma formatConfidence_in_range (a : Z) :
  (0 <= a <= 100)%Z -> formatConfidence a = number_to_string a ++ "%".
Proof.
  intros H. unfold formatConfidence.
  rewrite Z.min_r, Z.max_r by lia. reflexivity.
Qed.

(** [formatConfidence] shows the value clamped to 0..100 and nothing else:
    two values get the same text exactly when they clamp to the same
    number, so within 0..100 different confidences read differently. *)
Theorem formatConfidence_clamps :
  forall a b : Z,
    (formatConfidence a = formatConfidence b <->
     Z.max 0 (Z.min 100 a) = Z.max 0 (Z.min 100 b)) /\
    ((0 <= a <= 100)%Z ->
     formatConfidence a = number_to_string a ++ "%") /\
    ((a <= 0)%Z -> formatConfidence a = "0%") /\
    ((100 <= a)%Z -> formatConfidence a = "100%").
Proof.
  intros a b. unfold formatConfidence. repeat split.
  - intros H. apply number_to_string_inj, (append_char_inj _ _ _ H).
  - intros ->. reflexivity.
  - intros H. rewrite Z.min_r, Z.max_r by lia. reflexivity.
  - intros H. rewrite Z.min_r, Z.max_l by lia. reflexivity.
  - intros H. rewrite Z.min_l, Z.max_r by lia. reflexivity.
Qed.

Lemma formatConfidence_clamps_witness :
  formatConfidence 40 = "40%" /\ formatConfidence (-3) = "0%" /\
  formatConfidence 250 = "100%".
Proof.
  destruct (formatConfidence_clamps 40 40) as [_ [H1 _]].
  destruct (formatConfidence_clamps (-3) 0) as [_ [_ [H2 _]]].
  destruct (formatConfidence_clamps 250 0) as [_ [_ [_ H3]]].
  split; [apply H1; lia | split; [apply H2; lia | apply H3; lia]].
Defined.

(** For scores that are not negative the clamps never bite: the text of a
    ranked entry and the width of its bar are both the confidence itself,
    followed by a percent sign. *)
Theorem display_is_confidence :
  forall (scores : list RawScore) (r : RankedResult),
    (forall s, In s scores -> 0 <= score s) ->
    In r (rank scores) ->
    formatConfidence (confidence r) = number_to_string (confidence r) ++ "%"
    /\ bar_width (confidence r) = formatConfidence (confidence r).
Proof.
  intros scores r Hnn Hr.
  pose proof (rank_confidence_range scores r Hnn Hr) as Hc.
  unfold formatConfidence, bar_width.
  rewrite (Z.min_r 100), (Z.max_r 0), (Z.min_l _ 100) by lia.
  split; reflexivity.
Qed.

Lemma display_is_confidence_witness :
  Forall (fun r => bar_width (confidence r) = formatConfidence (confidence r))
         (rank [mkRaw "Calm" 0.4; mkRaw "Stressed" 0.6]).
Proof.
  apply Forall_forall. intros r Hr.
  apply (display_is_confidence [mkRaw "Calm" 0.4; mkRaw "Stressed" 0.6] r).
  - intros s Hs. simpl in Hs. destruct Hs as [<-|[<-|[]]]; discriminate.
  - exact Hr.
Defined.

(** A confidence below zero, which scores of mixed sign can produce,
    reads "0%" while its bar gets a negative width. *)
Example display_of_negative_confidence :
  map confidence (rank [mkRaw "a" 3; mkRaw "b" (-1)]) = [150; -50]%Z /\
  formatConfidence (-50) = "0%" /\ bar_width (-50) = "-50%" /\
  formatConfidence 150 = "100%" /\ bar_width 150 = "100%".
Proof. repeat split; vm_compute; reflexivity. Qed.

(** ** The handlers *)

Lemma handleFile_accepted (createObjectURL : FileLike -> string)
      (f : FileLike) (st : AppState) :
  type_startsWith_audio (Some f) = true ->
  handleFile createObjectURL (Some f) st
  = ({| audioUrl := createObjectURL f; audioName := name f;
        results := results st; status := loading; error := "";
        isRecording := isRecording st |},
     [CreateObjectURL f; InvokePipeline f]).
Proof. intros H. unfold handleFile. rewrite H. reflexivity. Qed.

(** [handleFile] calls the pipeline exactly when the MIME type of the file
    begins with "audio", and then once, on that file.  In that case it
    shows the new URL and name, sets the status to loading and clears the
    error message, and it keeps the previous results on display. *)
Theorem handleFile_audio :
  forall (createObjectURL : FileLike -> string)
         (file : option FileLike) (st : AppState),
    let st' := fst (handleFile createObjectURL file st) in
    let calls := invocations (snd (handleFile createObjectURL file st)) in
    (calls <> [] <-> type_startsWith_audio file = true) /\
    (forall f t, file = Some f -> type f = Some t ->
                 String.prefix "audio" t = true ->
       calls = [f] /\
       audioUrl st' = createObjectURL f /\ audioName st' = name f /\
       status st' = loading /\ error st' = "" /\
       results st' = results st /\ isRecording st' = isRecording st).
Proof.
  intros createObjectURL file st. cbv zeta. split.
  - destruct (type_startsWith_audio file) eqn:E.
    + destruct file as [f|]; [|discriminate].
      rewrite (handleFile_accepted _ _ _ E). simpl.
      split; [reflexivity | discriminate].
    + rewrite (handleFile_rejected _ _ _ E). simpl.
      split; [congruence | discriminate].
  - intros f t -> Ht Hp.
    assert (type_startsWith_audio (Some f) = true) as E
        by (simpl; rewrite Ht; exact Hp).
    rewrite (handleFile_accepted _ _ _ E). simpl. repeat split.
Qed.

Lemma handleFile_audio_witness :
  let f := mkFile (Some "clip5.wav") (Some "audio/wav") in
  let st := setError "Please upload an audio file (wav, m4a, mp3)." initial in
  status (fst (handleFile (fun _ => "blob:1") (Some f) st)) = loading /\
  error (fst (handleFile (fun _ => "blob:1") (Some f) st)) = "".
Proof.
  destruct (handleFile_audio
              (fun _ => "blob:1")
              (Some (mkFile (Some "clip5.wav") (Some "audio/wav")))
              (setError "Please upload an audio file (wav, m4a, mp3)."
                        initial)) as [_ H].
  destruct (H (mkFile (Some "clip5.wav") (Some "audio/wav")) "audio/wav"
              eq_refl eq_refl eq_refl) as [_ [_ [_ [H1 [H2 _]]]]].
  split; [exact H1 | exact H2].
Defined.

(** Of the files dropped or chosen only the first is looked at: the others
    are never analysed, not even when the first one is refused; without any
    file nothing changes and nothing is called. *)
Theorem handleDrop_first_file_only :
  forall (createObjectURL : FileLike -> string)
         (files : option (list FileLike)) (st : AppState),
    (forall f rest, files = Some (f :: rest) ->
       handleDrop createObjectURL files st
       = handleFile createObjectURL (Some f) st /\
       (forall g, In g (invocations
                          (snd (handleDrop createObjectURL files st))) ->
                  g = f)) /\
    (files = None \/ files = Some [] ->
     handleDrop createObjectURL files st = (st, [])).
Proof.
  intros createObjectURL files st. split.
  - intros f rest ->. unfold handleDrop. simpl first_file.
    split; [reflexivity|].
    destruct (type_startsWith_audio (Some f)) eqn:E.
    + rewrite (handleFile_accepted _ _ _ E). simpl.
      intros g [<-|[]]. reflexivity.
    + rewrite (handleFile_rejected _ _ _ E). simpl. intros g [].
  - intros [->| ->]; reflexivity.
Qed.

Lemma handleDrop_first_file_only_witness :
  invocations
    (snd (handleDrop (fun _ => "blob:1")
                     (Some [mkFile (Some "cat.png") (Some "image/png");
                            mkFile (Some "clip5.wav") (Some "audio/wav")])
                     initial))
  = [].
Proof.
  destruct (handleDrop_first_file_only
              (fun _ => "blob:1")
              (Some [mkFile (Some "cat.png") (Some "image/png");
                     mkFile (Some "clip5.wav") (Some "audio/wav")])
              initial) as [H _].
  destruct (H _ _ eq_refl) as [E _].
  rewrite E. reflexivity.
Defined.

(** ** The recorded chunks *)

Lemma record_chunks_app {byte : Type} (datas : list (list byte))
      (chunks : list (list byte)) :
  List.concat (record_chunks datas chunks) = (List.concat chunks ++ List.concat datas)%list.
Proof.
  revert chunks. induction datas as [|d ds IH]; intros chunks; simpl.
  - rewrite app_nil_r. reflexivity.
  - unfold record_chunks in *. simpl. rewrite IH. unfold ondataavailable.
    destruct d as [|b d]; simpl.
    + reflexivity.
    + rewrite List.concat_app. simpl. rewrite app_nil_r, <- app_assoc.
      reflexivity.
Qed.

Lemma record_chunks_nonempty {byte : Type} (datas : list (list byte))
      (chunks : list (list byte)) :
  Forall (fun c => c <> []) chunks ->
  Forall (fun c => c <> []) (record_chunks datas chunks).
Proof.
  revert chunks. induction datas as [|d ds IH]; intros chunks H; simpl.
  - exact H.
  - apply IH. unfold ondataavailable. destruct d as [|b d]; simpl.
    + exact H.
    + apply Forall_app. split; [exact H|].
      constructor; [discriminate | constructor].
Qed.

(** A recording that starts with no chunks ends with only non-empty
    chunks, in the order delivered, and their concatenation is the
    concatenation of everything the recorder delivered: dropping the empty
    chunks loses no byte. *)
Theorem recording_keeps_every_byte :
  forall (byte : Type) (datas : list (list byte)),
    List.concat (record_chunks datas []) = List.concat datas /\
    Forall (fun c => c <> []) (record_chunks datas []) /\
    record_chunks datas []
    = filter (fun d => (0 <? List.length d)%nat) datas.
Proof.
  intros byte datas. repeat split.
  - rewrite record_chunks_app. reflexivity.
  - apply record_chunks_nonempty. constructor.
  - assert (forall chunks,
               record_chunks datas chunks
               = (chunks ++ filter (fun d => (0 <? List.length d)%nat)
                                   datas)%list) as H.
    { induction datas as [|d ds IH]; intros chunks; simpl.
      - rewrite app_nil_r. reflexivity.
      - unfold record_chunks in *. simpl. rewrite IH.
        unfold ondataavailable.
        destruct (0 <? List.length d)%nat; [|reflexivity].
        rewrite <- app_assoc. reflexivity. }
    apply H.
Qed.

(** ** The component over time *)

Lemma draws_in_range_spec (rand : nat -> Q) :
  draws_in_range rand = true ->
  forall k, (k < 4)%nat -> 0 <= rand k /\ rand k < 1.
Proof.
  unfold draws_in_range. rewrite forallb_forall. intros H k Hk.
  specialize (H k). rewrite in_seq in H. specialize (H ltac:(lia)).
  apply andb_true_iff in H. destruct H as [H0 H1].
  apply Qle_bool_iff in H0. split; [exact H0|].
  apply Qnot_le_lt. intros L. apply Qle_bool_iff in L.
  rewrite L in H1. discriminate.
Qed.

(** The pipeline makes four draws only, so draws in range at the first
    four positions are as good as draws in range everywhere. *)
Lemma from_pipeline_intro (f : FileLike) (rand : nat -> Q) :
  draws_in_range rand = true ->
  from_pipeline (mockPredictEmotion (Some f) rand).
Proof.
  intros H. exists f, (fun k => if (k <? 4)%nat then rand k else 0).
  split; [|reflexivity].
  intros k. destruct (k <? 4)%nat eqn:E.
  - apply Nat.ltb_lt in E. apply (draws_in_range_spec rand H k E).
  - split; [discriminate | reflexivity].
Qed.

Lemma handleDrop_cases (createObjectURL : FileLike -> string)
      (files : option (list FileLike)) (st : AppState) :
  let r := handleDrop createObjectURL files st in
  results (fst r) = results st /\
  ((status (fst r) = status st /\ invocations (snd r) = []) \/
   (status (fst r) = loading /\ invocations (snd r) <> [])).
Proof.
  cbv zeta. unfold handleDrop.
  destruct (first_file files) as [f|]; [|simpl; auto].
  destruct (type_startsWith_audio (Some f)) eqn:E.
  - rewrite (handleFile_accepted _ _ _ E). simpl.
    split; [reflexivity|]. right. split; [reflexivity | discriminate].
  - rewrite (handleFile_rejected _ _ _ E). simpl. auto.
Qed.

Section Invariant.

Variable createObjectURL : FileLike -> string.

Lemma inv_mounted : inv mounted.
Proof.
  unfold inv. simpl. repeat split; [left; reflexivity | | ]; discriminate.
Qed.

Lemma inv_step (e : Event) (c c' : Component) :
  inv c -> step createObjectURL e c = Some c' -> inv c'.
Proof.
  unfold inv. intros [Hres [Hdone Hload]] Hstep.
  destruct e as [files| | | |url|i rand|i]; simpl in Hstep.
  - injection Hstep as <-. unfold after_handler. simpl.
    destruct (handleDrop_cases createObjectURL files (ui c))
      as [Er [[Es Ei]|[Es Ei]]]; rewrite Er, Es.
    + rewrite Ei, app_nil_r. auto.
    + repeat split; [exact Hres | discriminate |].
      intros _ H. apply app_eq_nil in H. tauto.
  - injection Hstep as <-. simpl.
    repeat split; [left; reflexivity | | ]; discriminate.
  - injection Hstep as <-. simpl. auto.
  - injection Hstep as <-. simpl. auto.
  - injection Hstep as <-. unfold after_handler. simpl.
    repeat split; [exact Hres | discriminate |].
    intros _ H. apply app_eq_nil in H. destruct H; discriminate.
  - destruct (nth_error (pending c) i) as [f|]; [|discriminate].
    destruct (draws_in_range rand) eqn:E; [|discriminate].
    injection Hstep as <-. simpl.
    repeat split; [right; apply from_pipeline_intro, E | | discriminate].
    intros _. apply mockPredictEmotion_nonempty.
  - destruct (nth_error (pending c) i) as [f|]; [|discriminate].
    injection Hstep as <-. simpl.
    repeat split; [exact Hres | | ]; discriminate.
Qed.

Lemma inv_run (events : list Event) (c c' : Component) :
  inv c -> run createObjectURL events c = Some c' -> inv c'.
Proof.
  revert c. induction events as [|e es IH]; intros c Hc Hrun; simpl in Hrun.
  - injection Hrun as <-. exact Hc.
  - destruct (step createObjectURL e c) as [c1|] eqn:E; [|discriminate].
    apply (IH c1); [apply (inv_step e c); assumption | exact Hrun].
Qed.

End Invariant.

(** Whatever happens after mounting, the results on display are either
    empty or exactly what one call of the pipeline returned for draws in
    [0,1); when the status is done they are not empty. *)
Theorem reachable_results :
  forall (createObjectURL : FileLike -> string) (events : list Event)
         (c : Component),
    run createObjectURL events mounted = Some c ->
    (results (ui c) = [] \/ from_pipeline (results (ui c))) /\
    (status (ui c) = done -> results (ui c) <> []).
Proof.
  intros createObjectURL events c H.
  destruct (inv_run createObjectURL events mounted c inv_mounted H)
    as [A [B _]].
  split; assumption.
Qed.

Lemma reachable_results_witness :
  exists c,
    run (fun _ => "blob:1")
        [FilesChosen (Some [clip5 (Some "audio/wav")]);
         PipelineResolved 0 (fun _ => 0.5)] mounted = Some c /\
    (status (ui c) = done -> results (ui c) <> []).
Proof.
  eexists. split; [reflexivity|].
  eapply (reachable_results (fun _ => "blob:1")
            [FilesChosen (Some [clip5 (Some "audio/wav")]);
             PipelineResolved 0 (fun _ => 0.5)]).
  reflexivity.
Defined.

(** Whatever happens after mounting, the status is loading only while a
    call of the pipeline is still pending: the spinner never shows with
    nothing in flight. *)
Theorem reachable_loading_has_pending :
  forall (createObjectURL : FileLike -> string) (events : list Event)
         (c : Component),
    run createObjectURL events mounted = Some c ->
    status (ui c) = loading -> pending c <> [].
Proof.
  intros createObjectURL events c H.
  destruct (inv_run createObjectURL events mounted c inv_mounted H)
    as [_ [_ A]].
  exact A.
Qed.

Lemma reachable_loading_has_pending_witness :
  exists c,
    run (fun _ => "blob:1")
        [RecordingStarted; StopClicked; RecorderStopped "blob:2"] mounted
    = Some c /\
    status (ui c) = loading /\ pending c <> [].
Proof.
  eexists. split; [reflexivity|]. split; [reflexivity|].
  apply (reachable_loading_has_pending
           (fun _ => "blob:1")
           [RecordingStarted; StopClicked; RecorderStopped "blob:2"]);
    reflexivity.
Defined.

(** Whatever happens after mounting, when the results panel is rendered
    (the results are not empty) there are four results in non-increasing
    order of confidence, the top emotion exists and is not Neutral, and
    every result has a colour, a cue, three suggestions and a confidence
    that [formatConfidence] shows unclamped. *)
Theorem reachable_panel :
  forall (createObjectURL : FileLike -> string) (events : list Event)
         (c : Component),
    run createObjectURL events mounted = Some c ->
    results (ui c) <> [] ->
    List.length (results (ui c)) = 4%nat /\
    StronglySorted (fun a b => (confidence a >= confidence b)%Z)
                   (results (ui c)) /\
    (exists top, topEmotion (results (ui c)) = Some top /\
                 rlabel top <> "Neutral") /\
    (forall r, In r (results (ui c)) ->
       (exists color cue tips,
           lookup (rlabel r) EMOTION_COLORS = Some color /\
           lookup (rlabel r) cues = Some cue /\
           lookup (rlabel r) suggestions = Some tips /\
           List.length tips = 3%nat) /\
       formatConfidence (confidence r)
       = number_to_string (confidence r) ++ "%").
Proof.
  intros createObjectURL events c H Hne.
  destruct (inv_run createObjectURL events mounted c inv_mounted H)
    as [[E|P] _]; [contradiction|].
  destruct P as [f [rand [Hr ->]]].
  destruct (mockPredictEmotion_entries (Some f) rand) as [HL [HP HC]].
  split; [exact HL|]. split; [|split].
  - unfold mockPredictEmotion, rank.
    apply (sort_sorted _ confidence), by_confidence_key.
  - destruct (pipeline_top_exists (Some f) rand) as [top Htop].
    exists top. split; [exact Htop|].
    apply (pipeline_top_not_neutral (Some f) rand top Hr Htop).
  - intros r Hin. split.
    + apply label_in_tables.
      apply (Permutation_in _ HP). apply in_map. exact Hin.
    + apply formatConfidence_in_range, HC, Hin.
Qed.

Lemma reachable_panel_witness :
  exists c,
    run (fun _ => "blob:1")
        [FilesChosen (Some [clip5 (Some "audio/wav")]);
         PipelineResolved 0 (fun _ => 0.5)] mounted = Some c /\
    exists top, topEmotion (results (ui c)) = Some top /\
                rlabel top <> "Neutral".
Proof.
  eexists. split; [reflexivity|].
  eapply (reachable_panel (fun _ => "blob:1")
            [FilesChosen (Some [clip5 (Some "audio/wav")]);
             PipelineResolved 0 (fun _ => 0.5)]).
  - reflexivity.
  - vm_compute. discriminate.
Defined.

(** A recording that starts while an analysis is pending does not cancel
    it: the results and the status that [startRecording] reset are
    overwritten when that analysis settles, while the recording is still
    on. *)
Theorem stale_analysis_overwrites_reset :
  forall (createObjectURL : FileLike -> string) (c : Component)
         (i : nat) (f : FileLike) (rand : nat -> Q),
    nth_error (pending c) i = Some f ->
    draws_in_range rand = true ->
    exists c1 c2,
      step createObjectURL RecordingStarted c = Some c1 /\
      results (ui c1) = [] /\ status (ui c1) = idle /\
      step createObjectURL (PipelineResolved i rand) c1 = Some c2 /\
      isRecording (ui c2) = true /\
      status (ui c2) = done /\
      results (ui c2) = mockPredictEmotion (Some f) rand /\
      results (ui c2) <> [].
Proof.
  intros createObjectURL c i f rand Hf Hr.
  do 2 eexists. split; [reflexivity|]. simpl.
  rewrite Hf, Hr. repeat split.
  simpl. apply mockPredictEmotion_nonempty.
Qed.

Lemma stale_analysis_overwrites_reset_witness :
  exists c c2,
    run (fun _ => "blob:1")
        [FilesChosen (Some [clip5 (Some "audio/wav")])] mounted = Some c /\
    run (fun _ => "blob:1")
        [RecordingStarted; PipelineResolved 0 (fun _ => 0.5)] c = Some c2 /\
    isRecording (ui c2) = true /\ status (ui c2) = done.
Proof.
  eexists. eexists. split; [reflexivity|]. split; [reflexivity|].
  destruct (stale_analysis_overwrites_reset
              (fun _ => "blob:1")
              {| ui := fst (handleFile (fun _ => "blob:1")
                                       (Some (clip5 (Some "audio/wav")))
                                       initial);
                 pending := [clip5 (Some "audio/wav")] |}
              0 (clip5 (Some "audio/wav")) (fun _ => 0.5)
              eq_refl eq_refl)
    as [c1 [c2 [H1 [_ [_ [H2 [H3 [H4 _]]]]]]]].
  injection H1 as <-. injection H2 as <-.
  split; [exact H3 | exact H4].
Defined.

(** ** The seed *)

(** The seed is the length of the name when the clip has a non-empty name;
    a missing clip, a missing name and an empty name all give the seed 3 of
    the fallback "mic", so the seed is never 0. *)
Theorem seed_fallback :
  forall fileLike : option FileLike,
    (0 < seed fileLike)%nat /\
    (forall f n, fileLike = Some f -> name f = Some n -> n <> "" ->
                 seed fileLike = String.length n) /\
    (fileLike = None \/
     (exists f, fileLike = Some f /\ (name f = None \/ name f = Some "")) ->
     seed fileLike = 3%nat).
Proof.
  intros fileLike. repeat split.
  - destruct fileLike as [[[[|c n]|] t]|]; unfold seed; simpl; lia.
  - intros f n -> Hn Hne. unfold seed. rewrite Hn.
    destruct n; [congruence | reflexivity].
  - intros [->|[f [-> [H|H]]]]; unfold seed; try rewrite H; reflexivity.
Qed.

Lemma seed_fallback_witness :
  seed (Some (mkFile (Some "") (Some "audio/wav"))) = 3%nat /\
  seed (Some (mkFile (Some "ab.mp3") (Some "audio/mpeg"))) = 6%nat.
Proof.
  split.
  - apply (seed_fallback (Some (mkFile (Some "") (Some "audio/wav")))).
    right. eexists. split; [reflexivity|]. right. reflexivity.
  - destruct (seed_fallback
                (Some (mkFile (Some "ab.mp3") (Some "audio/mpeg"))))
      as [_ [H _]].
    apply (H (mkFile (Some "ab.mp3") (Some "audio/mpeg")) "ab.mp3");
      [reflexivity | reflexivity | discriminate].
Defined.
